(** * Classifying images with a pretrained model

    A shallow embedding of the notebook
    [2-Intermediate/2.2-Pretrained-ResNet-Imagenet.ipynb].

    The notebook is a sequence of cells run against one global namespace.
    The cells are embedded as state transformers over a record of the
    globals; a Python exception aborts the cell and keeps the bindings
    made before it.  The calls into [json], [urllib], [PIL], [torchvision]
    and [torch] are embedded from the documented behaviour of these
    libraries; what lies outside the notebook altogether (the network of
    the label file, the image files, the resampling filter of the image
    library, the pretrained weights and the arithmetic of the residual
    network) is a field of the environment record [Env].

    Numbers: a pixel is a byte and a Python [int] is a [Z].  An entry of
    the tensor of an image is a [float32], with the IEEE 754 arithmetic
    of the standard library's [SpecFloat] at precision 24, and a Python
    [float] is a double in the same way.  A score of the network is the
    rational number it stands for ([Q]): the scores are only compared. *)

From Stdlib Require Import ZArith QArith Lia Lqa SpecFloat.
From stdpp Require Import base option list gmap strings pretty.

#[local] Set Warnings "-register-all".
#[local] Open Scope Z_scope.
#[local] Open Scope nat_scope.

(** ** Python exceptions and fallible computations *)

Inductive exn : Set :=
  | NameError
  | TypeError
  | KeyError
  | IndexError
  | ValueError
  | JSONDecodeError
  | UnicodeDecodeError
  | RecursionError
  | URLError
  | FileNotFoundError
  | ZeroDivisionError
  | RuntimeError.

(** [class KeyError(LookupError)], [class IndexError(LookupError)]. *)
Definition is_LookupError (e : exn) : bool :=
  match e with
  | KeyError | IndexError => true
  | _ => false
  end.

Inductive result (A : Type) : Type :=
  | Ok (a : A)
  | Raise (e : exn).
Arguments Ok {A} a.
Arguments Raise {A} e.

#[global] Instance result_ret : MRet result := @Ok.
#[global] Instance result_bind : MBind result := λ A B f r,
  match r with
  | Ok a => f a
  | Raise e => Raise e
  end.
#[global] Instance result_fmap : FMap result := λ A B f r,
  match r with
  | Ok a => Ok (f a)
  | Raise e => Raise e
  end.

(** ** Python values, as [json.loads] builds them *)

Inductive pyval : Type :=
  | PNone
  | PBool (b : bool)
  | PInt (z : Z)
  | PFloat (x : spec_float)
  | PStr (s : string)
  | PList (l : list pyval)
  | PDict (d : gmap string pyval).

(** [str(n)] for a Python [int]: its decimal numeral. *)
Definition str (n : Z) : string := pretty n.

(** [obj[key]] for a string [key].  A [dict] raises [KeyError] on a
    missing key; a [list] or a [str] refuses a string index and the other
    values are not subscriptable: [TypeError]. *)
Definition getitem (obj : pyval) (key : string) : result pyval :=
  match obj with
  | PDict d =>
      match d !! key with
      | Some v => Ok v
      | None => Raise KeyError
      end
  | _ => Raise TypeError
  end.

(** Why [json.loads] rejects the bytes of a document: they are not the
    encoding of a text, the text is not a JSON text, or the JSON text is
    nested too deep for the decoder. *)
Inductive rejection : Set :=
  | NotUnicode
  | NotJSONText
  | TooDeep.

(** The exception that [json.loads] raises for each. *)
Definition rejection_exn (why : rejection) : exn :=
  match why with
  | NotUnicode => UnicodeDecodeError
  | NotJSONText => JSONDecodeError
  | TooDeep => RecursionError
  end.

(** The bytes served at a URL, as [json.loads] reads them: bytes that it
    rejects, or the JSON text of a value.  A JSON object is read as a
    [dict], an array as a [list], a number with a fraction or an exponent
    and the literals [NaN] and [Infinity] as a [float]. *)
Inductive document : Type :=
  | Rejected (why : rejection)
  | JSON (v : pyval).

Module json.
Definition loads (doc : document) : result pyval :=
  match doc with
  | Rejected why => Raise (rejection_exn why)
  | JSON v => Ok v
  end.
End json.

(** The shape the label file is expected to have:
    [{"<int>": ["<synset_id>", "<label>"], ...}]. *)
Definition is_label_pair (v : pyval) : bool :=
  match v with
  | PList [PStr _; PStr _] => true
  | _ => false
  end.

Definition expected_shape (v : pyval) : bool :=
  match v with
  | PDict d => bool_decide (map_Forall (λ _ e, is_label_pair e = true) d)
  | _ => false
  end.

(** ** Tensors of rank at most two, and the reductions the notebook uses *)

Inductive tensor (A : Type) : Type :=
  | T0 (v : A)
  | T1 (l : list A)
  | T2 (rows : list (list A)).
Arguments T0 {A} v.
Arguments T1 {A} l.
Arguments T2 {A} rows.

(** [t.squeeze()] on a tensor of shape (B, C): the dimensions of size one
    are dropped. *)
Definition squeeze {A} (t : list (list A)) : tensor A :=
  match t with
  | [[v]] => T0 v
  | [row] => T1 row
  | rows =>
      if forallb (λ r, length r =? 1) rows then T1 (concat rows) else T2 rows
  end.

(** One step of the reduction of [max]: the running maximum and its index
    [acc] meet the entry [x] at index [i].  Only a strictly greater entry
    replaces the running maximum, so that the index of the first maximal
    value is returned, as [torch.max] documents. *)
Definition max_step (acc : Q * nat) (i : nat) (x : Q) : Q * nat :=
  if Qle_bool x (fst acc) then acc else (x, i).

Fixpoint max_from (acc : Q * nat) (i : nat) (l : list Q) : Q * nat :=
  match l with
  | [] => acc
  | x :: l' => max_from (max_step acc i x) (S i) l'
  end.

(** [values, indices = v.max(0)] on a vector: no maximum of no elements. *)
Definition max_vec (l : list Q) : result (Q * nat) :=
  match l with
  | [] => Raise RuntimeError
  | x :: l' => Ok (max_from (x, 0) 1 l')
  end.

(** The same reduction down the rows of a matrix, column by column. *)
Definition max_rows_step (k : nat) (acc : list (Q * nat)) (row : list Q)
  : list (Q * nat) :=
  zip_with (λ a x, max_step a k x) acc row.

Fixpoint max_rows_from (acc : list (Q * nat)) (k : nat) (rows : list (list Q))
  : list (Q * nat) :=
  match rows with
  | [] => acc
  | r :: rows' => max_rows_from (max_rows_step k acc r) (S k) rows'
  end.

(** [t.max(0)]: the pair of the maxima and of their indices along the
    first dimension. *)
Definition max0 (t : tensor Q) : result (tensor Q * tensor nat) :=
  match t with
  | T0 v => Ok (T0 v, T0 0)
  | T1 l => '(v, i) ← max_vec l; Ok (T0 v, T0 i)
  | T2 [] => Raise RuntimeError
  | T2 (r :: rows) =>
      let cols := max_rows_from ((λ x, (x, 0)) <$> r) 1 rows in
      Ok (T1 (fst <$> cols), T1 (snd <$> cols))
  end.

(** [t.item()]: the value of a tensor of exactly one element. *)
Definition item {A} (t : tensor A) : result A :=
  match t with
  | T0 v | T1 [v] | T2 [[v]] => Ok v
  | _ => Raise ValueError
  end.

(** ** Images of the image library *)

(** The pixel formats met here: 8-bit grey, true colour, and true colour
    with an alpha band. *)
Inductive mode : Set :=
  | L
  | RGB
  | RGBA.

(** [len(pic.mode)], the number of bands. *)
Definition nchannel (md : mode) : nat :=
  match md with
  | L => 1
  | RGB => 3
  | RGBA => 4
  end.

(** One band of an image: the byte at column [x] and row [y]. *)
Definition band : Type := nat → nat → Byte.byte.

(** An image has a mode, a size, and one band for each of the
    [nchannel] channels of its mode ([px c] for [c < nchannel]).  It is
    a decoded image: all its pixels are there to be read. *)
Record pil_image : Type := {
  mode_of : mode;
  width : nat;
  height : nat;
  px : nat → band;
}.

(** ** The world outside the notebook *)

(** The numbers of a [float32] tensor: IEEE 754 binary32, every
    operation rounded to the nearest, ties to even. *)
Module float32.
Definition prec : Z := 24.
Definition emax : Z := 128.

(** An integer as a [float32]. *)
Definition of_Z (z : Z) : spec_float := binary_normalize prec emax z 0 false.

(** [tensor.float()] at an entry of a byte tensor. *)
Definition of_byte (b : Byte.byte) : spec_float := of_Z (Z.of_N (Byte.to_N b)).

(** A decimal literal of Python: the double nearest to it (the quotient
    of its numerator by its denominator, both exact as doubles for the
    literals of the notebook). *)
Definition python_float (q : Q) : spec_float :=
  SFdiv 53 1024 (binary_normalize 53 1024 (Qnum q) 0 false)
    (binary_normalize 53 1024 (Zpos (Qden q)) 0 false).

(** A double rounded to a [float32]. *)
Definition of_double (x : spec_float) : spec_float :=
  match x with
  | S754_finite sx mx ex => binary_round prec emax sx mx ex
  | _ => x
  end.

(** [torch.as_tensor(q, dtype=torch.float32)] for a Python [float]. *)
Definition as_tensor (q : Q) : spec_float := of_double (python_float q).

Definition sub : spec_float → spec_float → spec_float := SFsub prec emax.
Definition div : spec_float → spec_float → spec_float := SFdiv prec emax.
Definition eqb : spec_float → spec_float → bool := SFeqb.
Definition leb : spec_float → spec_float → bool := SFleb.
Definition zero : spec_float := of_Z 0.
Definition one : spec_float := of_Z 1.
End float32.

(** The tensor of one image, of shape (C, H, W). *)
Abbreviation tensor3 := (list (list (list spec_float))).

(** The [state_dict] of the network: the learnt parameters, and the
    buffers (running statistics) its normalisation layers keep. *)
Record state_dict : Type := {
  weights : list Q;
  buffers : list Q;
}.

Record Env : Type := {
  (** the resampling filter of [Image.resize], band by band: the source
      band and its size, then the requested size *)
  resample : band → nat → nat → nat → nat → band;
  (** [Image.open(path)] *)
  Image_open : string → result pil_image;
  (** [urllib.request.urlopen(url).read()] *)
  urlopen_read : string → result document;
  (** the download of the pretrained [state_dict] of [resnet152] *)
  load_state_dict : result state_dict;
  (** the forward function of the network in evaluation mode: a batch of
      images to a batch of score vectors *)
  forward_eval : state_dict → list tensor3 → result (list (list Q));
  (** the forward function in training mode, which also writes the
      buffers *)
  forward_train : state_dict → list tensor3 → result (list (list Q) * list Q);
}.

(** ** Image operations *)

Module Image.
(** [img.convert('RGB')]: a grey image has its band copied to the three
    colour bands, an image with alpha loses the alpha band. *)
Definition convert_RGB (im : pil_image) : pil_image :=
  match mode_of im with
  | L => {| mode_of := RGB; width := width im; height := height im;
            px := λ _, px im 0 |}
  | RGB => im
  | RGBA => {| mode_of := RGB; width := width im; height := height im;
               px := px im |}
  end.

(** [img.resize((ow, oh), interpolation)] *)
Definition resize (env : Env) (im : pil_image) (ow oh : nat)
  : result pil_image :=
  if (ow =? 0) || (oh =? 0) then Raise ValueError
  else Ok {| mode_of := mode_of im; width := ow; height := oh;
             px := λ c, resample env (px im c) (width im) (height im) ow oh |}.

(** [img.crop((left, upper, right, lower))]: the region may reach
    outside the image, where the pixels are zero. *)
Definition crop (im : pil_image) (left upper right lower : Z) : pil_image :=
  {| mode_of := mode_of im;
     width := Z.to_nat (right - left);
     height := Z.to_nat (lower - upper);
     px := λ c x y,
       let sx := (Z.of_nat x + left)%Z in
       let sy := (Z.of_nat y + upper)%Z in
       if ((0 <=? sx)%Z && (sx <? Z.of_nat (width im))%Z
           && (0 <=? sy)%Z && (sy <? Z.of_nat (height im))%Z)%bool
       then px im c (Z.to_nat sx) (Z.to_nat sy)
       else Byte.x00 |}.
End Image.

(** ** The transforms of [torchvision.transforms] *)

(** What flows through a pipeline of transforms. *)
Inductive obj : Type :=
  | OImage (im : pil_image)
  | OTensor (t : tensor3).

(** [int(round(d / 2.))]: Python 3 rounds a half to the even neighbour. *)
Definition round_half (d : Z) : Z :=
  let q := (d / 2)%Z in
  if (d mod 2 =? 0)%Z then q else if Z.even q then q else (q + 1)%Z.

(** How a list of per-channel constants meets the [c] channels of a
    tensor: one constant for each channel, or a single constant for all. *)
Definition broadcast (v : list spec_float) (c : nat)
  : option (list spec_float) :=
  if length v =? c then Some v
  else match v with
       | [a] => Some (replicate c a)
       | _ => None
       end.

Module transforms.
Section WithEnv.
Variable env : Env.

(** [Resize(size)] with an [int]: the shorter side becomes [size],
    the other side follows the aspect ratio.  For the sizes an image
    can have, [int(size * h / w)] is the quotient of the integers.
<<
    w, h = img.size
    if (w <= h and w == size) or (h <= w and h == size): return img
    if w < h: ow = size; oh = int(size * h / w)
    else:     oh = size; ow = int(size * w / h)
    return img.resize((ow, oh), interpolation)
>>     *)
Definition Resize (size : nat) (o : obj) : result obj :=
  match o with
  | OTensor _ => Raise TypeError
  | OImage im =>
      let w := width im in
      let h := height im in
      if ((w <=? h) && (w =? size)) || ((h <=? w) && (h =? size))
      then Ok (OImage im)
      else if w <? h then
        if w =? 0 then Raise ZeroDivisionError
        else OImage <$> Image.resize env im size (size * h / w)
      else
        if h =? 0 then Raise ZeroDivisionError
        else OImage <$> Image.resize env im (size * w / h) size
  end.

(** [CenterCrop(size)]:
<<
    w, h = img.size
    th, tw = output_size
    i = int(round((h - th) / 2.))
    j = int(round((w - tw) / 2.))
    return img.crop((j, i, j + tw, i + th))
>>     *)
Definition CenterCrop (size : nat) (o : obj) : result obj :=
  match o with
  | OTensor _ => Raise TypeError
  | OImage im =>
      let th := Z.of_nat size in
      let tw := Z.of_nat size in
      let i := round_half (Z.of_nat (height im) - th) in
      let j := round_half (Z.of_nat (width im) - tw) in
      Ok (OImage (Image.crop im j i (j + tw) (i + th)))
  end.

(** [ToTensor()]: the bytes of an image in the layout (C, H, W),
    divided by 255. *)
Definition ToTensor (o : obj) : result obj :=
  match o with
  | OTensor _ => Raise TypeError
  | OImage im =>
      Ok (OTensor
            ((λ c,
                (λ y,
                   (λ x, float32.div (float32.of_byte (px im c x y))
                           (float32.of_Z 255))
                     <$> seq 0 (width im))
                  <$> seq 0 (height im))
               <$> seq 0 (nchannel (mode_of im))))
  end.

(** One channel standardised, [tensor.sub_(m).div_(s)]: every entry has
    [m] subtracted and the difference is divided by [s]. *)
Definition normalize_channel (ms : spec_float * spec_float)
    (plane : list (list spec_float)) : list (list spec_float) :=
  (λ row : list spec_float,
     (λ v, float32.div (float32.sub v (fst ms)) (snd ms)) <$> row) <$> plane.

(** [Normalize(mean, std)]: the constants are made [float32] tensors,
    channel [c] of the tensor has [mean[c]] subtracted and is divided by
    [std[c]]. *)
Definition Normalize (mean std : list Q) (o : obj) : result obj :=
  match o with
  | OImage _ => Raise TypeError
  | OTensor t =>
      let mean := float32.as_tensor <$> mean in
      let std := float32.as_tensor <$> std in
      if existsb (λ s, float32.eqb s float32.zero) std then Raise ValueError
      else match broadcast mean (length t), broadcast std (length t) with
           | Some ms, Some ss =>
               Ok (OTensor (zip_with normalize_channel (zip ms ss) t))
           | _, _ => Raise RuntimeError
           end
  end.

(** [Compose(ts)]: [for t in self.transforms: img = t(img)]. *)
Definition Compose (ts : list (obj → result obj)) (x : obj) : result obj :=
  fold_left (λ acc t, acc ≫= t) ts (Ok x).
End WithEnv.
End transforms.

(** ** The network object and its call *)

(** A [torch.nn.Module]: what it has learnt, whether it is in training
    mode, and whether its parameters ask for gradients. *)
Record nn_Module : Type := {
  state : state_dict;
  training : bool;
  params_require_grad : bool;
}.

(** The tensor a forward evaluation returns: the scores, of shape (B, C),
    and whether the tensor is attached to a graph of gradients. *)
Record out_tensor : Type := {
  data : list (list Q);
  requires_grad : bool;
}.

(** [resnet152(pretrained=True)]: a fresh module is in training mode and
    its parameters ask for gradients; its [state_dict] is downloaded. *)
Definition resnet152 (env : Env) : result nn_Module :=
  sd ← load_state_dict env;
  Ok {| state := sd; training := true; params_require_grad := true |}.

(** [module.eval()] *)
Definition eval (mdl : nn_Module) : nn_Module :=
  {| state := state mdl; training := false;
     params_require_grad := params_require_grad mdl |}.

(** [module(x)] under the gradient mode [grad]: the scores, and the module
    after the call.  Only a call in training mode writes the buffers. *)
Definition forward (env : Env) (grad : bool) (mdl : nn_Module)
    (x : list tensor3) : result (out_tensor * nn_Module) :=
  let rg := grad && params_require_grad mdl in
  if training mdl then
    '(scores, bufs) ← forward_train env (state mdl) x;
    Ok ({| data := scores; requires_grad := rg |},
        {| state := {| weights := weights (state mdl); buffers := bufs |};
           training := true;
           params_require_grad := params_require_grad mdl |})
  else
    scores ← forward_eval env (state mdl) x;
    Ok ({| data := scores; requires_grad := rg |}, mdl).

(** ** The global namespace of the notebook *)

Record notebook : Type := {
  (** the globals the cells bind *)
  model : option nn_Module;
  url : option string;
  class_idx : option pyval;
  img : option pil_image;
  output : option out_tensor;
  m : option (tensor Q);
  argm : option (tensor nat);
  class_id : option Z;
  (** the gradient mode of [torch] ([torch.is_grad_enabled()]) *)
  grad_enabled : bool;
  (** the number of forward evaluations made so far *)
  forward_calls : nat;
}.

(** A fresh kernel: nothing bound, gradients enabled. *)
Definition fresh : notebook :=
  {| model := None; url := None; class_idx := None; img := None;
     output := None; m := None; argm := None; class_id := None;
     grad_enabled := true; forward_calls := 0 |}.

Definition set_model (v : nn_Module) (s : notebook) : notebook :=
  {| model := Some v; url := url s; class_idx := class_idx s; img := img s;
     output := output s; m := m s; argm := argm s; class_id := class_id s;
     grad_enabled := grad_enabled s; forward_calls := forward_calls s |}.

Definition set_url (v : string) (s : notebook) : notebook :=
  {| model := model s; url := Some v; class_idx := class_idx s; img := img s;
     output := output s; m := m s; argm := argm s; class_id := class_id s;
     grad_enabled := grad_enabled s; forward_calls := forward_calls s |}.

Definition set_class_idx (v : pyval) (s : notebook) : notebook :=
  {| model := model s; url := url s; class_idx := Some v; img := img s;
     output := output s; m := m s; argm := argm s; class_id := class_id s;
     grad_enabled := grad_enabled s; forward_calls := forward_calls s |}.

Definition set_img (v : pil_image) (s : notebook) : notebook :=
  {| model := model s; url := url s; class_idx := class_idx s; img := Some v;
     output := output s; m := m s; argm := argm s; class_id := class_id s;
     grad_enabled := grad_enabled s; forward_calls := forward_calls s |}.

Definition set_output (v : out_tensor) (s : notebook) : notebook :=
  {| model := model s; url := url s; class_idx := class_idx s; img := img s;
     output := Some v; m := m s; argm := argm s; class_id := class_id s;
     grad_enabled := grad_enabled s; forward_calls := forward_calls s |}.

Definition set_m (v : tensor Q) (s : notebook) : notebook :=
  {| model := model s; url := url s; class_idx := class_idx s; img := img s;
     output := output s; m := Some v; argm := argm s; class_id := class_id s;
     grad_enabled := grad_enabled s; forward_calls := forward_calls s |}.

Definition set_argm (v : tensor nat) (s : notebook) : notebook :=
  {| model := model s; url := url s; class_idx := class_idx s; img := img s;
     output := output s; m := m s; argm := Some v; class_id := class_id s;
     grad_enabled := grad_enabled s; forward_calls := forward_calls s |}.

Definition set_class_id (v : Z) (s : notebook) : notebook :=
  {| model := model s; url := url s; class_idx := class_idx s; img := img s;
     output := output s; m := m s; argm := argm s; class_id := Some v;
     grad_enabled := grad_enabled s; forward_calls := forward_calls s |}.

Definition count_forward (s : notebook) : notebook :=
  {| model := model s; url := url s; class_idx := class_idx s; img := img s;
     output := output s; m := m s; argm := argm s; class_id := class_id s;
     grad_enabled := grad_enabled s; forward_calls := S (forward_calls s) |}.

(** ** Statements: state transformers that may raise *)

(** A statement runs on the namespace and gives the namespace after it,
    with a value or the exception that stopped it. *)
Definition stmt (A : Type) : Type := notebook → notebook * result A.

#[global] Instance stmt_ret : MRet stmt := λ A a s, (s, Ok a).
#[global] Instance stmt_bind : MBind stmt := λ A B f c s,
  match c s with
  | (s', Ok a) => f a s'
  | (s', Raise e) => (s', Raise e)
  end.

(** Reading a global: [NameError] when it is not bound. *)
Definition load {A} (var : notebook → option A) : stmt A := λ s,
  match var s with
  | Some v => (s, Ok v)
  | None => (s, Raise NameError)
  end.

(** Binding a global. *)
Definition store {A} (set : A → notebook → notebook) (v : A) : stmt unit :=
  λ s, (set v s, Ok ()).

(** A computation that does not touch the namespace. *)
Definition lift {A} (r : result A) : stmt A := λ s, (s, r).

(** [model(x)]: one forward evaluation of the module bound to [model],
    under the current gradient mode; the module object is updated in
    place. *)
Definition call_model (env : Env) (x : list tensor3) : stmt out_tensor := λ s,
  match model s with
  | None => (s, Raise NameError)
  | Some mdl =>
      match forward env (grad_enabled s) mdl x with
      | Ok (o, mdl') => (count_forward (set_model mdl' s), Ok o)
      | Raise e => (count_forward s, Raise e)
      end
  end.

(** ** The cells of the notebook *)

(** [torch.Tensor(x)] of what the transforms returned. *)
Definition torch_Tensor (o : obj) : result tensor3 :=
  match o with
  | OTensor t => Ok t
  | OImage _ => Raise TypeError
  end.

(** [t.unsqueeze(0)]: a batch of one. *)
Definition unsqueeze0 (t : tensor3) : list tensor3 := [t].

(** The transform [t] that [preproc] composes. *)
Definition t (env : Env) : obj → result obj :=
  transforms.Compose [
    transforms.Resize env 256;
    transforms.CenterCrop 224;
    transforms.ToTensor;
    transforms.Normalize [0.485; 0.456; 0.406]%Q [0.229; 0.224; 0.225]%Q
  ].

(**
<<
    def preproc(x):
        x = img
        t = transforms.Compose([...])
        x = t(x)
        x = torch.Tensor(x).unsqueeze(0)
        return x
>>
    The parameter [x] is rebound to the global [img] at once. *)
Definition preproc (env : Env) {X : Type} (x : X) : stmt (list tensor3) :=
  x ← load img;
  x ← lift (t env (OImage x));
  x ← lift (torch_Tensor x);
  mret (unsqueeze0 x).

(** [model = resnet152(pretrained=True).eval()] *)
Definition cell_model (env : Env) : stmt unit :=
  mdl ← lift (resnet152 env);
  store set_model (eval mdl).

Definition label_url : string :=
  "https://s3.amazonaws.com/deep-learning-models/image-models/imagenet_class_index.json".

(**
<<
    url = 'https://s3.amazonaws.com/.../imagenet_class_index.json'
    class_idx = json.loads(urllib.request.urlopen(url).read())
>>  *)
Definition cell_labels (env : Env) : stmt unit :=
  store set_url label_url;;
  u ← load url;
  doc ← lift (urlopen_read env u);
  v ← lift (json.loads doc);
  store set_class_idx v.

(**
<<
    img = Image.open(path)
    img = img.convert('RGB')
>>  *)
Definition cell_image (env : Env) (path : string) : stmt unit :=
  im ← lift (Image_open env path);
  store set_img im;;
  im ← load img;
  store set_img (Image.convert_RGB im).

(** [plt.imshow(img)] *)
Definition cell_show : stmt unit :=
  _ ← load img;
  mret ().

(** The first statement of the inference cell, [output =
    model(preproc(img))]: the names [model] and [img] are read, [preproc]
    is called on the image, the module on the batch. *)
Definition infer (env : Env) : stmt unit :=
  _ ← load model;
  a ← load img;
  x ← preproc env a;
  o ← call_model env x;
  store set_output o.

(** The statements that resolve the label:
<<
    m, argm = output.data.squeeze().max(0)
    class_id = argm.item()
    class_idx[str(class_id)]
>>  *)
Definition resolve : stmt pyval :=
  o ← load output;
  '(mv, am) ← lift (max0 (squeeze (data o)));
  store set_m mv;;
  store set_argm am;;
  am ← load argm;
  i ← lift (item am);
  store set_class_id (Z.of_nat i);;
  d ← load class_idx;
  i ← load class_id;
  lift (getitem d (str i)).

(**
<<
    output = model(preproc(img))
    m, argm = output.data.squeeze().max(0)
    class_id = argm.item()
    print(output)
    class_idx[str(class_id)]
>>
    The value of the cell is the value of its last expression; what
    [print] writes is not part of the namespace. *)
Definition cell_infer (env : Env) : stmt pyval :=
  infer env;;
  resolve.

(** A session: the cells, run in any order, any number of times.  An
    exception ends the cell it is raised in, not the session. *)
Inductive cell : Type :=
  | CModel
  | CLabels
  | CImage (path : string)
  | CShow
  | CInfer.

Definition run_cell (env : Env) (c : cell) (s : notebook) : notebook :=
  match c with
  | CModel => fst (cell_model env s)
  | CLabels => fst (cell_labels env s)
  | CImage path => fst (cell_image env path s)
  | CShow => fst (cell_show s)
  | CInfer => fst (cell_infer env s)
  end.

Definition run_cells (env : Env) (cs : list cell) (s : notebook) : notebook :=
  fold_left (λ s c, run_cell env c s) cs s.

(** ** Vocabulary of the statements *)

(** [i] is the index of the maximum of [l], the lowest one on a tie: the
    entry at [i] is not exceeded anywhere and is strictly greater than
    every entry before it. *)
Definition first_max (l : list Q) (i : nat) : Prop :=
  ∃ v, l !! i = Some v
       ∧ (∀ j w, l !! j = Some w → (w <= v)%Q)
       ∧ (∀ j w, j < i → l !! j = Some w → (w < v)%Q).

(** The maximum of [l] is at [k] and nowhere else. *)
Definition unique_max (l : list Q) (k : nat) : Prop :=
  ∃ v, l !! k = Some v ∧ ∀ j w, j ≠ k → l !! j = Some w → (w < v)%Q.

(** All the entries of [l] are equal. *)
Definition all_equal (l : list Q) : Prop :=
  ∀ j k v w, l !! j = Some v → l !! k = Some w → (v == w)%Q.

(** The inference cell, run on [s], evaluates the network to the score
    vector [scores]: [model] and [img] are bound, the image goes through
    [t], and the forward evaluation of the batch of one returns the batch
    of one score vector. *)
Definition scores_of (env : Env) (s : notebook) (scores : list Q) : Prop :=
  ∃ mdl im x o mdl',
    model s = Some mdl ∧ img s = Some im
    ∧ t env (OImage im) = Ok (OTensor x)
    ∧ forward env (grad_enabled s) mdl [x] = Ok (o, mdl')
    ∧ data o = [scores].

(** The tensor [a] has the shape (c, h, w). *)
Definition has_shape3 (c h w : nat) (a : tensor3) : Prop :=
  length a = c
  ∧ Forall (λ p, length p = h
                 ∧ Forall (λ r : list spec_float, length r = w) p) a.

(** The entry of [a] at channel [c], row [y] and column [x]. *)
Definition entry (a : tensor3) (c y x : nat) : option spec_float :=
  p ← a !! c; r ← p !! y; r !! x.

(** The keys of the label table: the numerals of 0..999. *)
Definition label_keys : gset string :=
  list_to_set ((λ i, str (Z.of_nat i)) <$> seq 0 1000).

(** The module that the first cell binds to [model] when the download
    gives the [state_dict] [sd]: in evaluation mode, its parameters asking
    for gradients. *)
Definition pretrained_model (sd : state_dict) : nn_Module :=
  {| state := sd; training := false; params_require_grad := true |}.

(** [model] is bound to the module as the first cell left it. *)
Definition frozen (sd : state_dict) (s : notebook) : Prop :=
  model s = Some (pretrained_model sd).

(** The namespace after the cell that loads the model has run on [s]
    and the cells [cs] have run after it. *)
Definition after_load (env : Env) (cs : list cell) (s : notebook) : notebook :=
  run_cells env cs (run_cell env CModel s).

(** The image [c] is the centre crop of side [size] of the image [r]: a
    window of [r] whose margins on either side differ by at most one. *)
Definition center_crop_of (size : nat) (r c : pil_image) : Prop :=
  ∃ i j : nat,
    mode_of c = mode_of r ∧ width c = size ∧ height c = size
    ∧ j + size ≤ width r ∧ i + size ≤ height r
    ∧ (width r - size - j ≤ j + 1 ∧ j ≤ width r - size - j + 1)
    ∧ (height r - size - i ≤ i + 1 ∧ i ≤ height r - size - i + 1)
    ∧ ∀ ch x y, x < size → y < size → px c ch x y = px r ch (x + j) (y + i).

(** The tensor [u] holds the bytes of the image [c], channel by channel,
    scaled to the interval from 0 to 1: every entry is the [float32] of
    a byte divided by 255. *)
Definition scaled (c : pil_image) (u : tensor3) : Prop :=
  has_shape3 (nchannel (mode_of c)) (height c) (width c) u
  ∧ ∀ ch y x, ch < nchannel (mode_of c) → y < height c → x < width c →
      ∃ q, entry u ch y x = Some q
           ∧ q = float32.div (float32.of_byte (px c ch x y)) (float32.of_Z 255)
           ∧ float32.leb float32.zero q = true
           ∧ float32.leb q float32.one = true.

(** The tensor [v] is [u] standardised channel by channel: every entry has
    the mean of its channel subtracted and is divided by the deviation of
    its channel, the constants and the two operations in [float32]. *)
Definition standardized (mean std : list Q) (u v : tensor3) : Prop :=
  ∀ ch y x,
    entry v ch y x
    = (q ← entry u ch y x; mc ← mean !! ch; sc ← std !! ch;
       Some (float32.div (float32.sub q (float32.as_tensor mc))
               (float32.as_tensor sc))).

(** The image [r] is the image [im] resized so that its shorter side is
    [size]: the mode is kept, the longer side follows the aspect ratio,
    and the bands are the bands of [im] resampled to the new size; an
    image whose shorter side is [size] already is returned as it is. *)
Definition resize_of (env : Env) (size : nat) (im r : pil_image) : Prop :=
  mode_of r = mode_of im
  ∧ (if width im <=? height im
     then width r = size ∧ height r = size * height im / width im
     else height r = size ∧ width r = size * width im / height im)
  ∧ (if Nat.min (width im) (height im) =? size
     then r = im
     else ∀ ch, px r ch
                = resample env (px im ch) (width im) (height im)
                    (width r) (height r)).

(** The entry that the transform makes of the byte [b] in a channel of
    mean [mean] and deviation [std]. *)
Definition standardized_byte (mean std : Q) (b : Byte.byte) : spec_float :=
  float32.div
    (float32.sub (float32.div (float32.of_byte b) (float32.of_Z 255))
       (float32.as_tensor mean))
    (float32.as_tensor std).

(** ** A small world to run the notebook in *)

Module Demo.
(** Nearest-neighbour resampling. *)
Definition nearest : band → nat → nat → nat → nat → band :=
  λ b w h ow oh x y,
    b (N.to_nat (N.of_nat x * N.of_nat w / N.of_nat ow))
      (N.to_nat (N.of_nat y * N.of_nat h / N.of_nat oh)).

(** A band of gradients. *)
Definition pattern (c : nat) : band := λ x y,
  default Byte.x00
    (Byte.of_N ((85 * N.of_nat c + N.of_nat x + 2 * N.of_nat y) mod 256)%N).

Definition dog : pil_image :=
  {| mode_of := RGB; width := 320; height := 240; px := pattern |}.

Definition scan : pil_image :=
  {| mode_of := L; width := 300; height := 400; px := pattern |}.

(** A score vector of 1000 entries, greatest at 208 and again at 500. *)
Definition scores : list Q :=
  replicate 208 0%Q ++ [1%Q] ++ replicate 291 0%Q ++ [1%Q]
    ++ replicate 499 (-1)%Q.

Definition label_entry (i : nat) : string * pyval :=
  (str (Z.of_nat i),
   if i =? 208 then PList [PStr "n02109961"; PStr "Eskimo_dog"]
   else PList [PStr ("n" +:+ str (Z.of_nat i));
               PStr ("class_" +:+ str (Z.of_nat i))]).

Definition labels : gmap string pyval :=
  list_to_map (label_entry <$> seq 0 1000).

Definition files (path : string) : result pil_image :=
  if String.eqb path "../data/imgs/img.jpg" then Ok dog
  else if String.eqb path "../data/imgs/cat.jpg" then Ok scan
  else Raise FileNotFoundError.

Definition pretrained : state_dict :=
  {| weights := [1; 2; 3]%Q; buffers := [0]%Q |}.

(** The world in which the label file is the expected object. *)
Definition env : Env :=
  {| resample := nearest;
     Image_open := files;
     urlopen_read := λ u,
       if String.eqb u label_url then Ok (JSON (PDict labels))
       else Raise URLError;
     load_state_dict := Ok pretrained;
     forward_eval := λ _ xs, Ok ((λ _, scores) <$> xs);
     forward_train := λ sd xs,
       Ok ((λ _, scores) <$> xs, (λ b, b + 1)%Q <$> buffers sd) |}.

(** The world in which the label file is a bare array. *)
Definition env_array : Env :=
  {| resample := nearest;
     Image_open := files;
     urlopen_read := λ _,
       Ok (JSON (PList [PList [PStr "n02109961"; PStr "Eskimo_dog"]]));
     load_state_dict := Ok pretrained;
     forward_eval := forward_eval env;
     forward_train := forward_train env |}.

(** The namespace once the model, the labels and the first image are
    loaded. *)
Definition loaded : notebook :=
  set_img dog (set_class_idx (PDict labels)
    (set_url label_url (set_model (pretrained_model pretrained) fresh))).
End Demo.

(** ** Vocabulary of the further properties *)

(** The global [img] is unbound or bound to an image in RGB mode. *)
Definition img_is_RGB (s : notebook) : Prop :=
  match img s with
  | Some im => mode_of im = RGB
  | None => True
  end.

(** The two namespaces bind the same globals and have the same gradient
    mode; the count of the forward evaluations may differ. *)
Definition same_globals (s s' : notebook) : Prop :=
  model s = model s' ∧ url s = url s' ∧ class_idx s = class_idx s'
  ∧ img s = img s' ∧ output s = output s' ∧ m s = m s'
  ∧ argm s = argm s' ∧ class_id s = class_id s'
  ∧ grad_enabled s = grad_enabled s'.

(** [isinstance(v, dict)] *)
Definition is_dict (v : pyval) : bool :=
  match v with
  | PDict _ => true
  | _ => false
  end.

(** An image whose shorter side is 256 already. *)
Definition demo_portrait : pil_image :=
  {| mode_of := RGB; width := 256; height := 300; px := Demo.pattern |}.

(** A second resampling filter: every resized band is black. *)
Definition demo_env_black : Env :=
  {| resample := λ _ _ _ _ _ _ _, Byte.x00;
     Image_open := Image_open Demo.env;
     urlopen_read := urlopen_read Demo.env;
     load_state_dict := load_state_dict Demo.env;
     forward_eval := forward_eval Demo.env;
     forward_train := forward_train Demo.env |}.

(** The namespace [Demo.loaded] with the bare array for a label table. *)
Definition demo_loaded_array : notebook :=
  set_class_idx (PList [PList [PStr "n02109961"; PStr "Eskimo_dog"]])
    Demo.loaded.

(** A world without a network and without image files. *)
Definition demo_env_offline : Env :=
  {| resample := resample Demo.env;
     Image_open := λ _, Raise FileNotFoundError;
     urlopen_read := λ _, Raise URLError;
     load_state_dict := Raise URLError;
     forward_eval := forward_eval Demo.env;
     forward_train := forward_train Demo.env |}.

(** * Properties *)

(** ** The error monad *)

Lemma result_bind_ok {A B} (a : A) (f : A → result B) : Ok a ≫= f = f a.
Proof. done. Qed.

(** ** The reduction [max] *)

Section Max.
Implicit Types (l pre : list Q) (acc : Q * nat).

Lemma max_step_keep acc i x :
  (x <= fst acc)%Q → max_step acc i x = acc.
Proof.
  intros H. unfold max_step.
  by apply Qle_bool_iff in H as ->.
Qed.

Lemma max_step_take acc i x :
  (fst acc < x)%Q → max_step acc i x = (x, i).
Proof.
  intros H. unfold max_step.
  destruct (Qle_bool x (fst acc)) eqn:E; [|done].
  apply Qle_bool_iff in E. by apply Qlt_not_le in H.
Qed.

(** The invariant of the scan: the accumulator is the first maximum of
    the prefix read so far. *)
Lemma max_from_first_max l : ∀ pre acc,
  first_max pre (snd acc) → pre !! snd acc = Some (fst acc) →
  first_max (pre ++ l) (snd (max_from acc (length pre) l))
  ∧ (pre ++ l) !! snd (max_from acc (length pre) l)
    = Some (fst (max_from acc (length pre) l)).
Proof.
  induction l as [|x l IH]; intros pre [b bi] Hfm Hb; simpl in *.
  - by rewrite app_nil_r.
  - replace (pre ++ x :: l) with ((pre ++ [x]) ++ l)
      by (by rewrite <- app_assoc).
    replace (S (length pre)) with (length (pre ++ [x]))
      by (rewrite length_app; simpl; lia).
    destruct Hfm as (v & Hv & Hle & Hlt).
    assert (v = b) as -> by congruence.
    assert (bi < length pre) as Hbi by (by eapply lookup_lt_Some).
    destruct (Qlt_le_dec b x) as [Hlt'|Hle'].
    + rewrite max_step_take by done.
      apply IH; simpl.
      * exists x. split; [by rewrite lookup_app_r, Nat.sub_diag by lia|].
        split.
        -- intros j w Hj. apply lookup_app_Some in Hj as [Hj|[Hge Hj]].
           ++ specialize (Hle _ _ Hj). lra.
           ++ destruct (j - length pre) eqn:E; simplify_eq/=; lra.
        -- intros j w Hjl Hj. rewrite lookup_app_l in Hj by done.
           specialize (Hle _ _ Hj). lra.
      * by rewrite lookup_app_r, Nat.sub_diag by lia.
    + rewrite max_step_keep by done.
      apply IH; simpl.
      * exists b. split; [by rewrite lookup_app_l|].
        split.
        -- intros j w Hj. apply lookup_app_Some in Hj as [Hj|[Hge Hj]].
           ++ by eapply Hle.
           ++ destruct (j - length pre) eqn:E; simplify_eq/=; lra.
        -- intros j w Hjl Hj. rewrite lookup_app_l in Hj by lia.
           by eapply Hlt.
      * by rewrite lookup_app_l.
Qed.

Lemma max_vec_first_max x l :
  ∃ v i, max_vec (x :: l) = Ok (v, i) ∧ first_max (x :: l) i.
Proof.
  simpl. destruct (max_from (x, 0) 1 l) as [v i] eqn:E.
  exists v, i. split; [done|].
  pose proof (max_from_first_max l [x] (x, 0)) as H. simpl in H.
  rewrite E in H. apply H; [|done].
  exists x. split; [done|]. split.
  - intros [|j] w Hj; simplify_eq/=; lra.
  - intros; lia.
Qed.

Lemma first_max_unique l i k : first_max l i → unique_max l k → i = k.
Proof.
  intros (v & Hv & Hle & Hlt) (u & Hu & Hk).
  destruct (decide (i = k)) as [|Hne]; [done|exfalso].
  specialize (Hk _ _ Hne Hv). specialize (Hle _ _ Hu). lra.
Qed.

Lemma first_max_all_equal l i : first_max l i → all_equal l → i = 0.
Proof.
  intros (v & Hv & Hle & Hlt) Heq.
  destruct i as [|i]; [done|exfalso].
  destruct l as [|x l]; [done|].
  specialize (Hlt 0 x (Nat.lt_0_succ i) eq_refl).
  specialize (Heq 0 (S i) x v eq_refl Hv). lra.
Qed.

(** What the inference cell makes of a batch of one score vector. *)
Lemma max0_squeeze_batch1 x l :
  ∃ mv i, max_vec (x :: l) = Ok (mv, i)
          ∧ max0 (squeeze [x :: l]) = Ok (T0 mv, T0 i).
Proof.
  destruct l as [|y l].
  - exists x, 0. by split.
  - destruct (max_vec_first_max x (y :: l)) as (v & i & Hm & _).
    exists v, i. split; [done|].
    change (squeeze [x :: y :: l]) with (T1 (x :: y :: l)).
    unfold max0. by rewrite Hm.
Qed.
End Max.

(** ** The transforms *)

Section Transforms.
Variable env : Env.
Implicit Types (im r c : pil_image) (u v : tensor3).

(** [Compose] runs its transforms from the first to the last. *)
Lemma Compose_raise ts e :
  fold_left (λ acc f, acc ≫= f) ts (Raise e : result obj) = Raise e.
Proof. induction ts as [|f ts IH]; [done|apply IH]. Qed.

Lemma Compose_cons f ts x :
  transforms.Compose (f :: ts) x = f x ≫= transforms.Compose ts.
Proof.
  unfold transforms.Compose. simpl.
  destruct (f x) as [y|e]; [done|apply Compose_raise].
Qed.

Lemma t_unfold x :
  t env x
  = transforms.Resize env 256 x ≫= λ o1,
    transforms.CenterCrop 224 o1 ≫= λ o2,
    transforms.ToTensor o2 ≫= λ o3,
    transforms.Normalize [0.485; 0.456; 0.406]%Q [0.229; 0.224; 0.225]%Q o3.
Proof.
  unfold t. rewrite Compose_cons.
  destruct (transforms.Resize env 256 x) as [o1|]; [simpl|done].
  rewrite Compose_cons.
  destruct (transforms.CenterCrop 224 o1) as [o2|]; [simpl|done].
  rewrite Compose_cons.
  destruct (transforms.ToTensor o2) as [o3|]; [simpl|done].
  rewrite Compose_cons.
  by destruct (transforms.Normalize _ _ o3).
Qed.

(** *** Resize *)

Lemma Resize_shorter_side size im :
  0 < width im → 0 < height im → 0 < size →
  ∃ r, transforms.Resize env size (OImage im) = Ok (OImage r)
       ∧ mode_of r = mode_of im
       ∧ Nat.min (width r) (height r) = size
       ∧ (r = im
          ∨ ∀ ch, px r ch
                  = resample env (px im ch) (width im) (height im)
                      (width r) (height r)).
Proof.
  intros Hw Hh Hs. unfold transforms.Resize.
  destruct (_ || _) eqn:Hsame.
  { exists im. repeat split; [|by left].
    apply orb_true_iff in Hsame as [H|H];
      apply andb_true_iff in H as [H1 H2];
      apply Nat.leb_le in H1; apply Nat.eqb_eq in H2; lia. }
  destruct (width im <? height im) eqn:Hlt.
  - apply Nat.ltb_lt in Hlt.
    destruct (width im =? 0) eqn:E; [apply Nat.eqb_eq in E; lia|].
    assert (size ≤ size * height im / width im) as Hge.
    { apply Nat.div_le_lower_bound; nia. }
    unfold Image.resize.
    replace ((size =? 0) || (size * height im / width im =? 0)) with false.
    2:{ symmetry. apply orb_false_iff. split; apply Nat.eqb_neq; lia. }
    eexists. split; [done|]. simpl. repeat split; [lia|by right].
  - apply Nat.ltb_ge in Hlt.
    destruct (height im =? 0) eqn:E; [apply Nat.eqb_eq in E; lia|].
    assert (size ≤ size * width im / height im) as Hge.
    { apply Nat.div_le_lower_bound; nia. }
    unfold Image.resize.
    replace ((size * width im / height im =? 0) || (size =? 0)) with false.
    2:{ symmetry. apply orb_false_iff. split; apply Nat.eqb_neq; lia. }
    eexists. split; [done|]. simpl. repeat split; [lia|by right].
Qed.

(** What [Resize] returns is the image resized. *)
Lemma Resize_resize_of size im r :
  0 < width im → 0 < height im → 0 < size →
  transforms.Resize env size (OImage im) = Ok (OImage r) →
  resize_of env size im r.
Proof.
  intros Hw Hh Hs. unfold transforms.Resize, resize_of.
  destruct (_ || _) eqn:Hsame.
  { intros [= <-]. split; [done|].
    assert (Nat.min (width im) (height im) = size
            ∧ (width im ≤ height im → width im = size)
            ∧ (height im < width im → height im = size)) as (Hmin & H1 & H2).
    { apply orb_true_iff in Hsame as [H|H];
        apply andb_true_iff in H as [Ha Hb];
        apply Nat.leb_le in Ha; apply Nat.eqb_eq in Hb; lia. }
    apply Nat.eqb_eq in Hmin as ->. split; [|done].
    destruct (width im <=? height im) eqn:Hle.
    - apply Nat.leb_le in Hle. rewrite <- (H1 Hle). split; [done|].
      symmetry. rewrite Nat.mul_comm. apply Nat.div_mul. lia.
    - apply Nat.leb_gt in Hle. rewrite <- (H2 Hle). split; [done|].
      symmetry. rewrite Nat.mul_comm. apply Nat.div_mul. lia. }
  assert ((Nat.min (width im) (height im) =? size) = false) as ->.
  { apply Nat.eqb_neq. intros Hmin.
    apply orb_false_iff in Hsame as [Ha Hb].
    apply andb_false_iff in Ha, Hb.
    destruct Ha as [Ha|Ha], Hb as [Hb|Hb];
      try apply Nat.leb_gt in Ha; try apply Nat.leb_gt in Hb;
      try apply Nat.eqb_neq in Ha; try apply Nat.eqb_neq in Hb; lia. }
  destruct (width im <? height im) eqn:Hlt.
  - apply Nat.ltb_lt in Hlt.
    destruct (width im =? 0); [done|]. unfold Image.resize.
    destruct ((size =? 0) || _); [done|]. cbn [fmap result_fmap].
    intros [= <-]. cbn.
    replace (width im <=? height im) with true
      by (symmetry; apply Nat.leb_le; lia).
    done.
  - apply Nat.ltb_ge in Hlt.
    destruct (height im =? 0); [done|]. unfold Image.resize.
    destruct (_ || (size =? 0)); [done|]. cbn [fmap result_fmap].
    intros [= <-]. cbn.
    destruct (width im <=? height im) eqn:Hle; [|done].
    apply Nat.leb_le in Hle. assert (width im = height im) as -> by lia.
    by rewrite Nat.div_mul by lia.
Qed.

(** *** CenterCrop *)

Lemma round_half_bounds d :
  (0 ≤ d)%Z →
  (0 ≤ round_half d ∧ d - round_half d ≤ round_half d + 1
   ∧ round_half d ≤ d - round_half d + 1 ∧ round_half d ≤ d)%Z.
Proof.
  intros Hd. unfold round_half.
  pose proof (Z.div_mod d 2 ltac:(lia)) as Hdm.
  pose proof (Z.mod_pos_bound d 2 ltac:(lia)) as Hm.
  destruct (d mod 2 =? 0)%Z eqn:E.
  - apply Z.eqb_eq in E. lia.
  - apply Z.eqb_neq in E. destruct (Z.even (d / 2)); lia.
Qed.

Lemma CenterCrop_window size r :
  size ≤ width r → size ≤ height r →
  ∃ c, transforms.CenterCrop size (OImage r) = Ok (OImage c)
       ∧ center_crop_of size r c.
Proof.
  intros Hw Hh. unfold transforms.CenterCrop. eexists. split; [done|].
  set (i := round_half (Z.of_nat (height r) - Z.of_nat size)).
  set (j := round_half (Z.of_nat (width r) - Z.of_nat size)).
  destruct (round_half_bounds (Z.of_nat (height r) - Z.of_nat size))
    as (Hi0 & Hi1 & Hi2 & Hi3); [lia|].
  destruct (round_half_bounds (Z.of_nat (width r) - Z.of_nat size))
    as (Hj0 & Hj1 & Hj2 & Hj3); [lia|].
  fold i in Hi0, Hi1, Hi2, Hi3. fold j in Hj0, Hj1, Hj2, Hj3.
  exists (Z.to_nat i), (Z.to_nat j). simpl.
  repeat split; try lia.
  intros ch x y Hx Hy.
  replace (Z.of_nat x + j)%Z with (Z.of_nat (x + Z.to_nat j)) by lia.
  replace (Z.of_nat y + i)%Z with (Z.of_nat (y + Z.to_nat i)) by lia.
  rewrite !Nat2Z.id.
  destruct (_ && _) eqn:E; [done|exfalso].
  repeat (apply andb_false_iff in E as [E|E]);
    [apply Z.leb_gt in E|apply Z.ltb_ge in E
    |apply Z.leb_gt in E|apply Z.ltb_ge in E]; lia.
Qed.

(** *** ToTensor *)

Lemma lookup_tabulate {A} (f : nat → A) n i :
  i < n → (f <$> seq 0 n) !! i = Some (f i).
Proof.
  intros Hi. rewrite list_lookup_fmap, lookup_seq_lt by done. done.
Qed.

Lemma scaled_byte_range b :
  float32.leb float32.zero
    (float32.div (float32.of_byte b) (float32.of_Z 255)) = true
  ∧ float32.leb (float32.div (float32.of_byte b) (float32.of_Z 255))
      float32.one = true.
Proof. by destruct b; vm_compute. Qed.

Lemma ToTensor_scaled c :
  ∃ u, transforms.ToTensor (OImage c) = Ok (OTensor u) ∧ scaled c u.
Proof.
  unfold transforms.ToTensor. eexists. split; [done|]. split.
  - split; [by rewrite length_fmap, length_seq|].
    apply Forall_fmap, Forall_forall. intros ch _. simpl.
    split; [by rewrite length_fmap, length_seq|].
    apply Forall_fmap, Forall_forall. intros y _. simpl.
    by rewrite length_fmap, length_seq.
  - intros ch y x Hch Hy Hx. eexists. split.
    + unfold entry. rewrite lookup_tabulate by done. simpl.
      rewrite lookup_tabulate by done. simpl.
      by rewrite lookup_tabulate by done.
    + split; [done|]. apply scaled_byte_range.
Qed.

(** *** Normalize *)

Lemma Normalize_standardized mean std u :
  length mean = length u → length std = length u →
  existsb (λ s, float32.eqb s float32.zero) (float32.as_tensor <$> std)
  = false →
  ∃ v, transforms.Normalize mean std (OTensor u) = Ok (OTensor v)
       ∧ standardized mean std u v
       ∧ ∀ n h w, has_shape3 n h w u → has_shape3 n h w v.
Proof.
  intros Hm Hs Hz. unfold transforms.Normalize, broadcast. cbv zeta.
  rewrite Hz, !length_fmap.
  apply Nat.eqb_eq in Hm as Hm', Hs as Hs'.
  rewrite Hm', Hs'. eexists. split; [done|]. split.
  - intros ch y x. unfold entry.
    rewrite !lookup_zip_with, !list_lookup_fmap.
    destruct (mean !! ch) as [mc|], (std !! ch) as [sc|],
      (u !! ch) as [p|]; simpl; try done.
    + unfold transforms.normalize_channel. rewrite list_lookup_fmap.
      destruct (p !! y) as [row|]; simpl; [|done].
      rewrite list_lookup_fmap. by destruct (row !! x).
    + by destruct (p !! y) as [row|]; simpl; [destruct (row !! x)|].
    + by destruct (p !! y) as [row|]; simpl; [destruct (row !! x)|].
    + by destruct (p !! y) as [row|]; simpl; [destruct (row !! x)|].
  - intros n h w [Hn Hu]. split.
    + rewrite !length_zip_with, !length_fmap. lia.
    + apply Forall_lookup. intros i q Hq.
      rewrite lookup_zip_with in Hq.
      destruct (zip_with pair _ _ !! i) as [ms|]; [|done].
      simpl in Hq. destruct (u !! i) as [p|] eqn:Hp; [|done].
      simplify_eq/=.
      destruct (Forall_lookup_1 _ _ _ _ Hu Hp) as [Hh Hw].
      unfold transforms.normalize_channel. split.
      * by rewrite length_fmap.
      * apply Forall_fmap, Forall_forall. intros row Hrow. simpl.
        rewrite length_fmap.
        by eapply Forall_forall in Hw.
Qed.

(** *** The whole transform, stage by stage *)

Lemma center_crop_of_size size r c :
  center_crop_of size r c →
  mode_of c = mode_of r ∧ width c = size ∧ height c = size.
Proof. intros (i & j & H1 & H2 & H3 & _). done. Qed.

Lemma t_run im :
  mode_of im = RGB → 0 < width im → 0 < height im →
  ∃ r c u v,
    transforms.Resize env 256 (OImage im) = Ok (OImage r)
    ∧ Nat.min (width r) (height r) = 256
    ∧ transforms.CenterCrop 224 (OImage r) = Ok (OImage c)
    ∧ center_crop_of 224 r c
    ∧ transforms.ToTensor (OImage c) = Ok (OTensor u)
    ∧ scaled c u
    ∧ transforms.Normalize [0.485; 0.456; 0.406]%Q
        [0.229; 0.224; 0.225]%Q (OTensor u) = Ok (OTensor v)
    ∧ standardized [0.485; 0.456; 0.406]%Q [0.229; 0.224; 0.225]%Q u v
    ∧ t env (OImage im) = Ok (OTensor v)
    ∧ has_shape3 3 224 224 v.
Proof.
  intros Hmode Hw Hh.
  destruct (Resize_shorter_side 256 im Hw Hh ltac:(lia))
    as (r & HR & Hmr & Hmin & _).
  destruct (CenterCrop_window 224 r ltac:(lia) ltac:(lia))
    as (c & HC & Hcc).
  destruct (center_crop_of_size _ _ _ Hcc) as (Hmc & Hwc & Hhc).
  destruct (ToTensor_scaled c) as (u & HT & Hsc).
  assert (has_shape3 3 224 224 u) as Hshape.
  { destruct Hsc as [Hsh _]. by rewrite Hmc, Hmr, Hmode, Hwc, Hhc in Hsh. }
  destruct (Normalize_standardized [0.485; 0.456; 0.406]%Q
              [0.229; 0.224; 0.225]%Q u) as (v & HN & Hst & Hsh);
    [by destruct Hshape..|by vm_compute|].
  assert (t env (OImage im) = Ok (OTensor v)) as Ht.
  { rewrite t_unfold, HR, result_bind_ok, HC, result_bind_ok, HT.
    by rewrite result_bind_ok. }
  apply Hsh in Hshape.
  exists r, c, u, v. repeat (split; [assumption|]). assumption.
Qed.

(** *** Grey images *)

Lemma gray_stages g u :
  mode_of g = L →
  (transforms.Resize env 256 (OImage (Image.convert_RGB g))
     ≫= transforms.CenterCrop 224) ≫= transforms.ToTensor
  = Ok (OTensor u) →
  ∃ plane,
    (transforms.Resize env 256 (OImage g)
       ≫= transforms.CenterCrop 224) ≫= transforms.ToTensor
    = Ok (OTensor [plane])
    ∧ u = [plane; plane; plane].
Proof.
  intros Hmode. unfold Image.convert_RGB. rewrite Hmode.
  unfold transforms.Resize. cbn [width height].
  assert (∀ r r' : pil_image,
            mode_of r = L → mode_of r' = RGB →
            width r' = width r → height r' = height r →
            (∀ ch, px r' ch = px r 0) →
            (Ok (OImage r') ≫= transforms.CenterCrop 224)
              ≫= transforms.ToTensor = Ok (OTensor u) →
            ∃ plane,
              (Ok (OImage r) ≫= transforms.CenterCrop 224)
                ≫= transforms.ToTensor = Ok (OTensor [plane])
              ∧ u = [plane; plane; plane]) as Hrest.
  { intros r r' Hr Hr' Hw Hh Hpx.
    rewrite !result_bind_ok. unfold transforms.CenterCrop.
    rewrite !result_bind_ok. unfold transforms.ToTensor, Image.crop.
    cbn [mode_of width height px]. rewrite Hr, Hr', Hw, Hh.
    cbn [nchannel seq fmap list_fmap]. rewrite !Hpx.
    intros [= <-]. by eexists. }
  destruct (_ || _); [by apply Hrest|].
  destruct (width g <? height g).
  - destruct (width g =? 0); [done|]. unfold Image.resize.
    cbn [mode_of width height px].
    destruct (_ || _); [done|]. by apply Hrest.
  - destruct (height g =? 0); [done|]. unfold Image.resize.
    cbn [mode_of width height px].
    destruct (_ || _); [done|]. by apply Hrest.
Qed.
End Transforms.

(** ** The statements of the cells *)

Section Cells.
Variable env : Env.
Implicit Types s : notebook.

Lemma load_bind {A B} (var : notebook → option A) (f : A → stmt B) s :
  (load var ≫= f) s
  = match var s with
    | Some v => f v s
    | None => (s, Raise NameError)
    end.
Proof. unfold mbind, stmt_bind, load. by destruct (var s). Qed.

Lemma lift_bind {A B} (r : result A) (f : A → stmt B) s :
  (lift r ≫= f) s
  = match r with
    | Ok a => f a s
    | Raise e => (s, Raise e)
    end.
Proof. unfold mbind, stmt_bind, lift. by destruct r. Qed.

Lemma store_bind {A B} (set : A → notebook → notebook) v
    (f : unit → stmt B) s :
  (store set v ≫= f) s = f () (set v s).
Proof. done. Qed.

(** [preproc] reads the global [img], whatever it is called with, and
    leaves the namespace as it is. *)
Lemma preproc_run {X} (a : X) s :
  preproc env a s
  = (s, match img s with
        | None => Raise NameError
        | Some im =>
            o ← t env (OImage im); x ← torch_Tensor o; Ok (unsqueeze0 x)
        end).
Proof.
  unfold preproc. rewrite load_bind.
  destruct (img s) as [im|]; [|done].
  rewrite lift_bind. destruct (t env (OImage im)) as [o|e]; [|done].
  rewrite lift_bind, result_bind_ok.
  by destruct (torch_Tensor o).
Qed.

(** The first statement of the inference cell, case by case. *)
Lemma infer_run s :
  infer env s
  = match model s, img s with
    | Some mdl, Some im =>
        match o ← t env (OImage im); torch_Tensor o with
        | Ok x =>
            match forward env (grad_enabled s) mdl [x] with
            | Ok (o, mdl') =>
                (set_output o (count_forward (set_model mdl' s)), Ok ())
            | Raise e => (count_forward s, Raise e)
            end
        | Raise e => (s, Raise e)
        end
    | _, _ => (s, Raise NameError)
    end.
Proof.
  unfold infer. rewrite load_bind.
  destruct (model s) as [mdl|] eqn:Hm; [|done].
  rewrite load_bind. destruct (img s) as [im|] eqn:Hi; [|done].
  unfold mbind at 1, stmt_bind. rewrite preproc_run, Hi.
  destruct (t env (OImage im)) as [o|e]; [|done].
  rewrite !result_bind_ok.
  destruct (torch_Tensor o) as [x|e]; [|done].
  rewrite result_bind_ok. unfold unsqueeze0.
  unfold mbind, stmt_bind, call_model. rewrite Hm.
  by destruct (forward env (grad_enabled s) mdl [x]) as [[o' mdl']|e].
Qed.

(** The statements that resolve the label, case by case. *)
Lemma resolve_run s :
  resolve s
  = match output s with
    | None => (s, Raise NameError)
    | Some o =>
        match max0 (squeeze (data o)) with
        | Raise e => (s, Raise e)
        | Ok (mv, am) =>
            let s1 := set_argm am (set_m mv s) in
            match item am with
            | Raise e => (s1, Raise e)
            | Ok i =>
                (set_class_id (Z.of_nat i) s1,
                 match class_idx s with
                 | None => Raise NameError
                 | Some d => getitem d (str (Z.of_nat i))
                 end)
            end
        end
    end.
Proof.
  unfold resolve. rewrite load_bind.
  destruct (output s) as [o|]; [|done].
  rewrite lift_bind.
  destruct (max0 (squeeze (data o))) as [[mv am]|e]; [|done].
  rewrite !store_bind, load_bind. cbn [argm set_argm].
  rewrite lift_bind. destruct (item am) as [i|e]; [|done].
  rewrite store_bind, load_bind. cbn [class_idx set_class_id set_argm set_m].
  destruct (class_idx s) as [d|]; [|done].
  by rewrite load_bind.
Qed.

Lemma cell_infer_run s :
  cell_infer env s
  = match infer env s with
    | (s', Ok _) => resolve s'
    | (s', Raise e) => (s', Raise e)
    end.
Proof. done. Qed.

(** The inference cell on a namespace whose forward evaluation gives a
    batch of one score vector that is not empty. *)
Lemma cell_infer_scores s x l :
  scores_of env s (x :: l) →
  ∃ s' mv i,
    max_vec (x :: l) = Ok (mv, i)
    ∧ class_idx s' = class_idx s
    ∧ cell_infer env s
      = (set_class_id (Z.of_nat i) (set_argm (T0 i) (set_m (T0 mv) s')),
         match class_idx s with
         | None => Raise NameError
         | Some d => getitem d (str (Z.of_nat i))
         end).
Proof.
  intros (mdl & im & a & o & mdl' & Hm & Hi & Ht & Hf & Hd).
  destruct (max0_squeeze_batch1 x l) as (mv & i & Hmax & Hsq).
  exists (set_output o (count_forward (set_model mdl' s))), mv, i.
  split; [done|]. split; [done|].
  rewrite cell_infer_run, infer_run, Hm, Hi, Ht, result_bind_ok.
  cbn [torch_Tensor]. rewrite Hf, resolve_run.
  cbn [output set_output]. rewrite Hd, Hsq. done.
Qed.
End Cells.

(** ** The cells that load *)

Section Loading.
Variable env : Env.
Implicit Types s : notebook.

Lemma cell_model_run s :
  cell_model env s
  = match load_state_dict env with
    | Ok sd => (set_model (pretrained_model sd) s, Ok ())
    | Raise e => (s, Raise e)
    end.
Proof.
  unfold cell_model, resnet152. rewrite lift_bind.
  by destruct (load_state_dict env).
Qed.

Lemma cell_labels_run s :
  cell_labels env s
  = match urlopen_read env label_url ≫= json.loads with
    | Ok v => (set_class_idx v (set_url label_url s), Ok ())
    | Raise e => (set_url label_url s, Raise e)
    end.
Proof.
  unfold cell_labels. rewrite store_bind, load_bind. cbn [url set_url].
  rewrite lift_bind.
  destruct (urlopen_read env label_url) as [doc|e]; [|done].
  rewrite lift_bind, result_bind_ok. by destruct (json.loads doc).
Qed.

Lemma cell_image_run path s :
  cell_image env path s
  = match Image_open env path with
    | Ok im => (set_img (Image.convert_RGB im) (set_img im s), Ok ())
    | Raise e => (s, Raise e)
    end.
Proof.
  unfold cell_image. rewrite lift_bind.
  by destruct (Image_open env path).
Qed.

Lemma cell_show_run s :
  cell_show s
  = (s, match img s with
        | Some _ => Ok ()
        | None => Raise NameError
        end).
Proof. unfold cell_show. rewrite load_bind. by destruct (img s). Qed.

(** What the statements that resolve the label leave alone. *)
Lemma resolve_frame s :
  model (fst (resolve s)) = model s
  ∧ output (fst (resolve s)) = output s
  ∧ grad_enabled (fst (resolve s)) = grad_enabled s
  ∧ forward_calls (fst (resolve s)) = forward_calls s
  ∧ img (fst (resolve s)) = img s.
Proof.
  rewrite resolve_run. destruct (output s) as [o|] eqn:Ho; [|done].
  destruct (max0 _) as [[mv am]|]; [|done].
  cbv zeta. by destruct (item am).
Qed.

(** The inference cell does not rebind [img]. *)
Lemma cell_infer_img s : img (fst (cell_infer env s)) = img s.
Proof.
  rewrite cell_infer_run, infer_run.
  destruct (model s) as [mdl|]; [|done].
  destruct (img s) as [im|] eqn:Hi; [|done].
  destruct (_ ≫= _) as [x|e]; [|done].
  destruct (forward _ _ _ _) as [[o mdl']|e]; [|done].
  by destruct (resolve_frame (set_output o (count_forward (set_model mdl' s))))
    as (_ & _ & _ & _ & ->).
Qed.

(** The inference statement on a namespace whose model is as loaded:
    one forward evaluation, in evaluation mode, under the gradient mode
    of the namespace; the model is left as it is. *)
Lemma infer_frozen sd s :
  frozen sd s →
  match infer env s with
  | (s', Ok _) =>
      forward_calls s' = S (forward_calls s) ∧ frozen sd s'
      ∧ grad_enabled s' = grad_enabled s
      ∧ ∃ x o, output s' = Some o
               ∧ forward_eval env sd [x] = Ok (data o)
               ∧ requires_grad o = grad_enabled s
  | (s', Raise _) =>
      forward_calls s' ≤ S (forward_calls s) ∧ frozen sd s'
      ∧ grad_enabled s' = grad_enabled s
  end.
Proof.
  unfold frozen. intros Hm. rewrite infer_run, Hm.
  destruct (img s) as [im|]; [|by auto].
  destruct (_ ≫= _) as [x|e]; [|by auto].
  unfold forward, pretrained_model. cbn [training state params_require_grad].
  destruct (forward_eval env sd [x]) as [scores|e] eqn:Hf.
  - rewrite result_bind_ok. cbn [output set_output forward_calls
      count_forward set_model model grad_enabled].
    repeat split.
    eexists x, _. split; [done|]. split; [done|]. cbn. apply andb_true_r.
  - cbn [mbind result_bind forward_calls count_forward model grad_enabled].
    by auto.
Qed.

Lemma run_cell_grad c s : grad_enabled (run_cell env c s) = grad_enabled s.
Proof.
  destruct c as [| |path| |]; unfold run_cell.
  - rewrite cell_model_run. by destruct (load_state_dict env).
  - rewrite cell_labels_run. by destruct (_ ≫= _).
  - rewrite cell_image_run. by destruct (Image_open env path).
  - by rewrite cell_show_run.
  - rewrite cell_infer_run, infer_run.
    destruct (model s) as [mdl|]; [|done].
    destruct (img s) as [im|]; [|done].
    destruct (_ ≫= _) as [x|e]; [|done].
    destruct (forward _ _ _ _) as [[o mdl']|e]; [|done].
    by destruct (resolve_frame (set_output o (count_forward (set_model mdl' s))))
      as (_ & _ & -> & _).
Qed.

Lemma run_cell_frozen sd c s :
  load_state_dict env = Ok sd → frozen sd s → frozen sd (run_cell env c s).
Proof.
  intros Hsd Hm. destruct c as [| |path| |]; unfold run_cell.
  - by rewrite cell_model_run, Hsd.
  - rewrite cell_labels_run. by destruct (_ ≫= _).
  - rewrite cell_image_run. by destruct (Image_open env path).
  - by rewrite cell_show_run.
  - rewrite cell_infer_run. pose proof (infer_frozen sd s Hm) as H.
    destruct (infer env s) as [s' [[]|e]].
    + destruct H as (_ & H & _). unfold frozen in *.
      by destruct (resolve_frame s') as (-> & _).
    + by destruct H as (_ & H & _).
Qed.

Lemma run_cells_frozen sd cs : ∀ s,
  load_state_dict env = Ok sd → frozen sd s →
  frozen sd (run_cells env cs s) ∧
  grad_enabled (run_cells env cs s) = grad_enabled s.
Proof.
  induction cs as [|c cs IH]; intros s Hsd Hm; [done|].
  unfold run_cells in *. cbn [fold_left].
  destruct (IH (run_cell env c s) Hsd) as [H1 H2];
    [by apply run_cell_frozen|].
  by rewrite H2, run_cell_grad.
Qed.

Lemma run_cell_model_frozen sd s :
  load_state_dict env = Ok sd → frozen sd (run_cell env CModel s).
Proof. intros Hsd. unfold run_cell. by rewrite cell_model_run, Hsd. Qed.
End Loading.

(** [str] tells the indices apart. *)
Lemma str_nat_inj (i j : nat) : str (Z.of_nat i) = str (Z.of_nat j) → i = j.
Proof. unfold str. intros H. by apply (inj pretty), (inj Z.of_nat) in H. Qed.

(** ** The demo world *)

Section DemoFacts.
Lemma demo_scores_max : max_vec Demo.scores = Ok (1%Q, 208).
Proof. by vm_compute. Qed.

Lemma demo_first_max : first_max Demo.scores 208.
Proof.
  pose proof demo_scores_max as Hmax.
  unfold Demo.scores in *. cbn [replicate app] in Hmax |- *.
  match goal with
  | |- first_max (?x :: ?l) _ =>
      destruct (max_vec_first_max x l) as (v & i & Hv & Hfm)
  end.
  rewrite Hmax in Hv. by injection Hv as <- <-.
Qed.

Lemma demo_scores_of : scores_of Demo.env Demo.loaded Demo.scores.
Proof.
  destruct (t_run Demo.env Demo.dog) as (r & c & u & v & H);
    [done|cbn; lia..|].
  destruct H as (_ & _ & _ & _ & _ & _ & _ & _ & Ht & _).
  exists (pretrained_model Demo.pretrained), Demo.dog, v,
    {| data := [Demo.scores]; requires_grad := true |},
    (pretrained_model Demo.pretrained).
  repeat split; [exact Ht].

Qed.

Lemma demo_labels_dom : dom Demo.labels = label_keys.
Proof.
  unfold Demo.labels, label_keys. rewrite dom_list_to_map_L.
  by rewrite <- list_fmap_compose.
Qed.

Lemma demo_labels_shape : expected_shape (PDict Demo.labels) = true.
Proof.
  apply bool_decide_eq_true_2. intros k p Hk.
  apply elem_of_list_to_map_2, list_elem_of_fmap in Hk
    as (i & [= -> ->] & _).
  by destruct (i =? 208).
Qed.

Lemma demo_labels_208 :
  Demo.labels !! "208" = Some (PList [PStr "n02109961"; PStr "Eskimo_dog"]).
Proof.
  apply elem_of_list_to_map_1.
  - unfold Demo.label_entry. rewrite <- list_fmap_compose.
    apply NoDup_fmap_2; [|apply NoDup_seq].
    intros i j Hij. by apply str_nat_inj in Hij.
  - apply list_elem_of_fmap. exists 208. split; [done|].
    apply elem_of_seq. lia.
Qed.
End DemoFacts.

(** ** Label resolution *)

Lemma first_max_inj l i j : first_max l i → first_max l j → i = j.
Proof.
  intros (v & Hv & Hle & Hlt) (w & Hw & Hle' & Hlt').
  destruct (Nat.lt_trichotomy i j) as [H|[H|H]]; [exfalso|done|exfalso].
  - specialize (Hlt' _ _ H Hv). specialize (Hle _ _ Hw). lra.
  - specialize (Hlt _ _ H Hw). specialize (Hle' _ _ Hv). lra.
Qed.

(** The inference cell, when its forward evaluation gives the scores [l]
    whose first maximum is at [i]: [class_id] is [i] and the value of the
    cell is [class_idx[str(i)]]. *)
Lemma cell_infer_first_max env s l i :
  scores_of env s l → first_max l i →
  class_id (fst (cell_infer env s)) = Some (Z.of_nat i)
  ∧ snd (cell_infer env s)
    = match class_idx s with
      | None => Raise NameError
      | Some d => getitem d (str (Z.of_nat i))
      end.
Proof.
  intros Hs Hfm. destruct l as [|x l]; [by destruct Hfm as (? & ? & _)|].
  destruct (cell_infer_scores env s x l Hs) as (s' & mv & k & Hmax & _ & ->).
  destruct (max_vec_first_max x l) as (mv' & k' & Hmax' & Hfm').
  rewrite Hmax in Hmax'. injection Hmax' as <- <-.
  by rewrite (first_max_inj _ _ _ Hfm Hfm').
Qed.

Lemma str_in_label_keys (i : nat) : str (Z.of_nat i) ∈ label_keys ↔ i < 1000.
Proof.
  unfold label_keys. rewrite elem_of_list_to_set, list_elem_of_fmap.
  split.
  - intros (j & Hij & Hj). apply str_nat_inj in Hij.
    apply elem_of_seq in Hj. lia.
  - intros Hi. exists i. split; [done|]. apply elem_of_seq. lia.
Qed.

(** * The claims *)

(** C1: for every score vector that the forward evaluation returns,
    label resolution binds [class_id] to the index of the maximum element,
    the lowest index on a tie; so to the index of a unique maximum, and
    to 0 when all the scores are equal. *)
Theorem label_resolution_argmax env s scores :
  scores_of env s scores → scores ≠ [] →
  ∃ i, class_id (fst (cell_infer env s)) = Some (Z.of_nat i)
       ∧ first_max scores i
       ∧ (∀ k, unique_max scores k → i = k)
       ∧ (all_equal scores → i = 0).
Proof.
  intros Hs Hne. destruct scores as [|x l]; [done|].
  destruct (max_vec_first_max x l) as (mv & i & _ & Hfm).
  exists i. split; [by apply (cell_infer_first_max env s (x :: l))|].
  split; [done|]. split.
  - intros k. by apply first_max_unique.
  - by apply first_max_all_equal.
Qed.

Lemma label_resolution_argmax_witness :
  scores_of Demo.env Demo.loaded Demo.scores ∧ Demo.scores ≠ []
  ∧ ∃ i, class_id (fst (cell_infer Demo.env Demo.loaded)) = Some (Z.of_nat i)
         ∧ first_max Demo.scores i
         ∧ (∀ k, unique_max Demo.scores k → i = k)
         ∧ (all_equal Demo.scores → i = 0).
Proof.
  split; [exact demo_scores_of|]. split; [discriminate|].
  apply (label_resolution_argmax Demo.env Demo.loaded Demo.scores).
  - exact demo_scores_of.
  - discriminate.
Defined.

(** C2: for every RGB image with a positive width and height (so that its
    shorter side can be resized to 256), the preprocessing transform
    yields a tensor of shape (3, 224, 224), whatever the size of the
    image; [preproc] returns it as a batch of one. *)
Theorem preprocessing_shape env im {X : Type} (a : X) s :
  mode_of im = RGB → 0 < width im → 0 < height im →
  ∃ x, t env (OImage im) = Ok (OTensor x)
       ∧ has_shape3 3 224 224 x
       ∧ snd (preproc env a (set_img im s)) = Ok [x].
Proof.
  intros Hmode Hw Hh.
  destruct (t_run env im Hmode Hw Hh) as (r & c & u & v & H).
  exists v. destruct H as (_ & _ & _ & _ & _ & _ & _ & _ & Ht & Hv).
  split; [done|]. split; [done|].
  rewrite preproc_run. cbn [img set_img snd]. by rewrite Ht.
Qed.

Lemma preprocessing_shape_witness :
  mode_of Demo.dog = RGB ∧ 0 < width Demo.dog ∧ 0 < height Demo.dog
  ∧ ∃ x, t Demo.env (OImage Demo.dog) = Ok (OTensor x)
         ∧ has_shape3 3 224 224 x
         ∧ snd (preproc Demo.env Demo.scan (set_img Demo.dog fresh)) = Ok [x].
Proof.
  split; [reflexivity|]. split; [cbn; lia|]. split; [cbn; lia|].
  apply (preprocessing_shape Demo.env Demo.dog Demo.scan fresh);
    [reflexivity|cbn; lia..].
Defined.

(** C3 (as amended): loading the label table from a JSON document that
    does not match the expected shape, a bare array for one, raises
    nothing: whatever [json.loads] decodes is bound to [class_idx] as it
    is.  The cell raises only when [json.loads] rejects the bytes, with
    the exception of [json.loads], and then [class_idx] is as it was
    (only [url] is bound). *)
Theorem labels_loaded_unchecked env s doc :
  urlopen_read env label_url = Ok doc →
  match doc with
  | JSON v =>
      cell_labels env s = (set_class_idx v (set_url label_url s), Ok ())
      ∧ class_idx (fst (cell_labels env s)) = Some v
  | Rejected why =>
      cell_labels env s = (set_url label_url s, Raise (rejection_exn why))
      ∧ class_idx (fst (cell_labels env s)) = class_idx s
  end.
Proof.
  intros Hdoc. rewrite cell_labels_run, Hdoc, result_bind_ok.
  by destruct doc.
Qed.

Lemma labels_loaded_unchecked_witness :
  urlopen_read Demo.env label_url = Ok (JSON (PDict Demo.labels))
  ∧ cell_labels Demo.env fresh
    = (set_class_idx (PDict Demo.labels) (set_url label_url fresh), Ok ())
  ∧ class_idx (fst (cell_labels Demo.env fresh)) = Some (PDict Demo.labels).
Proof.
  split; [reflexivity|].
  exact (labels_loaded_unchecked Demo.env fresh (JSON (PDict Demo.labels))
           eq_refl).
Defined.

(** C3, as stated, fails: a bare array does not have the expected shape,
    yet the cell that loads it raises nothing and binds it to
    [class_idx]. *)
Lemma bare_array_is_loaded :
  urlopen_read Demo.env_array label_url
  = Ok (JSON (PList [PList [PStr "n02109961"; PStr "Eskimo_dog"]]))
  ∧ expected_shape (PList [PList [PStr "n02109961"; PStr "Eskimo_dog"]])
    = false
  ∧ snd (cell_labels Demo.env_array fresh) = Ok ()
  ∧ class_idx (fst (cell_labels Demo.env_array fresh))
    = Some (PList [PList [PStr "n02109961"; PStr "Eskimo_dog"]]).
Proof. by repeat split. Qed.

(** C4: with a label table whose keys are the numerals of 0..999 and
    whose values are pairs, a predicted class index outside 0..999 makes
    label resolution fail with a [LookupError] (a [KeyError]), and an
    index inside it makes the cell return the pair stored for it. *)
Theorem label_lookup env s d scores i :
  class_idx s = Some (PDict d) → dom d = label_keys →
  expected_shape (PDict d) = true →
  scores_of env s scores → first_max scores i →
  if decide (i < 1000)
  then ∃ p, d !! str (Z.of_nat i) = Some p ∧ is_label_pair p = true
            ∧ snd (cell_infer env s) = Ok p
  else ∃ e, snd (cell_infer env s) = Raise e ∧ is_LookupError e = true.
Proof.
  intros Hd Hdom Hshape Hs Hfm.
  destruct (cell_infer_first_max env s scores i Hs Hfm) as [_ ->].
  rewrite Hd. unfold getitem.
  pose proof (str_in_label_keys i) as Hkey.
  rewrite <- Hdom, elem_of_dom in Hkey.
  destruct (decide (i < 1000)) as [Hi|Hi].
  - apply Hkey in Hi as [p Hp]. exists p. rewrite Hp.
    split; [done|]. split; [|done].
    apply bool_decide_eq_true_1 in Hshape. by apply (Hshape _ _ Hp).
  - destruct (d !! str (Z.of_nat i)) as [p|] eqn:Hp.
    + exfalso. apply Hi, Hkey. by exists p.
    + by exists KeyError.
Qed.

Lemma label_lookup_witness :
  class_idx Demo.loaded = Some (PDict Demo.labels)
  ∧ dom Demo.labels = label_keys
  ∧ expected_shape (PDict Demo.labels) = true
  ∧ scores_of Demo.env Demo.loaded Demo.scores
  ∧ first_max Demo.scores 208
  ∧ ∃ p, Demo.labels !! str (Z.of_nat 208) = Some p ∧ is_label_pair p = true
         ∧ snd (cell_infer Demo.env Demo.loaded) = Ok p.
Proof.
  split; [reflexivity|]. split; [exact demo_labels_dom|].
  split; [exact demo_labels_shape|]. split; [exact demo_scores_of|].
  split; [exact demo_first_max|].
  exact (label_lookup Demo.env Demo.loaded Demo.labels Demo.scores 208
           eq_refl demo_labels_dom demo_labels_shape demo_scores_of
           demo_first_max).
Defined.

(** C6 (as amended): after the model is loaded, whatever cells run, the
    module bound to [model] stays as loaded (its parameters and buffers
    are never written and it stays in evaluation mode) and the gradient
    mode stays as it was; an inference call then makes exactly one
    forward evaluation, in evaluation mode, and its output is attached to
    the graph of gradients exactly when the gradient mode is enabled. *)
Theorem model_stays_frozen env sd cs s :
  load_state_dict env = Ok sd →
  frozen sd (after_load env cs s)
  ∧ grad_enabled (after_load env cs s) = grad_enabled s
  ∧ match infer env (after_load env cs s) with
    | (s', Ok _) =>
        forward_calls s' = S (forward_calls (after_load env cs s))
        ∧ frozen sd s'
        ∧ ∃ x o, output s' = Some o
                 ∧ forward_eval env sd [x] = Ok (data o)
                 ∧ requires_grad o = grad_enabled s
    | (s', Raise _) =>
        forward_calls s' ≤ S (forward_calls (after_load env cs s))
        ∧ frozen sd s'
    end.
Proof.
  intros Hsd. unfold after_load.
  destruct (run_cells_frozen env sd cs (run_cell env CModel s) Hsd)
    as [Hfr Hg]; [by apply run_cell_model_frozen|].
  rewrite run_cell_grad in Hg.
  split; [done|]. split; [done|].
  pose proof (infer_frozen env sd _ Hfr) as H.
  destruct (infer env _) as [s' [[]|e]].
  - destruct H as (H1 & H2 & _ & x & o & H3 & H4 & H5).
    split; [done|]. split; [done|]. exists x, o. by rewrite H5, Hg.
  - by destruct H as (H1 & H2 & _).
Qed.

Lemma model_stays_frozen_witness :
  load_state_dict Demo.env = Ok Demo.pretrained
  ∧ frozen Demo.pretrained
      (after_load Demo.env [CLabels; CImage "../data/imgs/img.jpg"] fresh)
  ∧ grad_enabled
      (after_load Demo.env [CLabels; CImage "../data/imgs/img.jpg"] fresh)
    = grad_enabled fresh
  ∧ match infer Demo.env
            (after_load Demo.env [CLabels; CImage "../data/imgs/img.jpg"]
               fresh) with
    | (s', Ok _) =>
        forward_calls s'
        = S (forward_calls
               (after_load Demo.env [CLabels; CImage "../data/imgs/img.jpg"]
                  fresh))
        ∧ frozen Demo.pretrained s'
        ∧ ∃ x o, output s' = Some o
                 ∧ forward_eval Demo.env Demo.pretrained [x] = Ok (data o)
                 ∧ requires_grad o = grad_enabled fresh
    | (s', Raise _) =>
        forward_calls s'
        ≤ S (forward_calls
               (after_load Demo.env [CLabels; CImage "../data/imgs/img.jpg"]
                  fresh))
        ∧ frozen Demo.pretrained s'
    end.
Proof.
  split; [reflexivity|].
  exact (model_stays_frozen Demo.env Demo.pretrained
           [CLabels; CImage "../data/imgs/img.jpg"] fresh eq_refl).
Defined.

(** C6, as stated, fails: in a session run from a fresh kernel the
    gradient mode is enabled when the inference cell runs, and the output
    of the forward evaluation is attached to the graph of gradients. *)
Lemma inference_tracks_gradients :
  after_load Demo.env [CLabels; CImage "../data/imgs/img.jpg"] fresh
  = Demo.loaded
  ∧ grad_enabled Demo.loaded = true
  ∧ requires_grad <$> output (run_cell Demo.env CInfer Demo.loaded)
    = Some true.
Proof.
  split; [reflexivity|]. split; [reflexivity|].
  pose proof (infer_frozen Demo.env Demo.pretrained Demo.loaded eq_refl) as H.
  unfold run_cell. rewrite cell_infer_run.
  destruct demo_scores_of as (mdl & im & x & o & mdl' & Hm & Hi & Ht & Hf & _).
  rewrite infer_run, Hm, Hi, Ht, result_bind_ok in H |- *.
  cbn [torch_Tensor] in H |- *. rewrite Hf in H |- *.
  destruct H as (_ & _ & _ & x' & o' & Ho & _ & Hg).
  destruct (resolve_frame (set_output o (count_forward (set_model mdl' Demo.loaded))))
    as (_ & -> & _).
  cbn [output set_output] in Ho |- *. injection Ho as <-.
  cbn [fmap option_fmap option_map]. by rewrite Hg.
Qed.

(** C7: on every decoded RGB image the preprocessing transform runs four
    stages in this order: the image is resized so that its shorter side
    is 256 (the mode kept, the longer side following the aspect ratio,
    the bands resampled from the bands of the image), the result is
    cropped at its centre to 224 by 224, the bytes of the crop are scaled
    to the interval from 0 to 1, and the scaled tensor is standardised
    channel by channel with the means (0.485, 0.456, 0.406) and the
    deviations (0.229, 0.224, 0.225). *)
Theorem preprocessing_stages env im :
  mode_of im = RGB → 0 < width im → 0 < height im →
  ∃ r c u v,
    transforms.Resize env 256 (OImage im) = Ok (OImage r)
    ∧ Nat.min (width r) (height r) = 256
    ∧ resize_of env 256 im r
    ∧ transforms.CenterCrop 224 (OImage r) = Ok (OImage c)
    ∧ center_crop_of 224 r c
    ∧ transforms.ToTensor (OImage c) = Ok (OTensor u)
    ∧ scaled c u
    ∧ transforms.Normalize [0.485; 0.456; 0.406]%Q
        [0.229; 0.224; 0.225]%Q (OTensor u) = Ok (OTensor v)
    ∧ standardized [0.485; 0.456; 0.406]%Q [0.229; 0.224; 0.225]%Q u v
    ∧ t env (OImage im) = Ok (OTensor v).
Proof.
  intros Hmode Hw Hh.
  destruct (t_run env im Hmode Hw Hh) as (r & c & u & v & H).
  exists r, c, u, v.
  destruct H as (H1 & H2 & H3 & H4 & H5 & H6 & H7 & H8 & H9 & _).
  pose proof (Resize_resize_of env 256 im r Hw Hh ltac:(lia) H1) as Hr.
  by repeat (split; [assumption|]).
Qed.

Lemma preprocessing_stages_witness :
  mode_of Demo.dog = RGB ∧ 0 < width Demo.dog ∧ 0 < height Demo.dog
  ∧ ∃ r c u v,
      transforms.Resize Demo.env 256 (OImage Demo.dog) = Ok (OImage r)
      ∧ Nat.min (width r) (height r) = 256
      ∧ resize_of Demo.env 256 Demo.dog r
      ∧ transforms.CenterCrop 224 (OImage r) = Ok (OImage c)
      ∧ center_crop_of 224 r c
      ∧ transforms.ToTensor (OImage c) = Ok (OTensor u)
      ∧ scaled c u
      ∧ transforms.Normalize [0.485; 0.456; 0.406]%Q
          [0.229; 0.224; 0.225]%Q (OTensor u) = Ok (OTensor v)
      ∧ standardized [0.485; 0.456; 0.406]%Q [0.229; 0.224; 0.225]%Q u v
      ∧ t Demo.env (OImage Demo.dog) = Ok (OTensor v).
Proof.
  split; [reflexivity|]. split; [cbn; lia|]. split; [cbn; lia|].
  apply (preprocessing_stages Demo.env Demo.dog); [reflexivity|cbn; lia..].
Defined.

(** C8: if the label table maps "208" to ("n02109961", "Eskimo_dog") and
    the maximum of the score vector is at index 208 (and at no lower
    index), label resolution returns ("n02109961", "Eskimo_dog"). *)
Theorem eskimo_dog env s d scores :
  class_idx s = Some (PDict d) →
  d !! "208" = Some (PList [PStr "n02109961"; PStr "Eskimo_dog"]) →
  scores_of env s scores → first_max scores 208 →
  class_id (fst (cell_infer env s)) = Some 208%Z
  ∧ snd (cell_infer env s) = Ok (PList [PStr "n02109961"; PStr "Eskimo_dog"]).
Proof.
  intros Hd H208 Hs Hfm.
  destruct (cell_infer_first_max env s scores 208 Hs Hfm) as [-> ->].
  split; [done|]. rewrite Hd. unfold getitem.
  change (str (Z.of_nat 208)) with "208". by rewrite H208.
Qed.

Lemma eskimo_dog_witness :
  class_idx Demo.loaded = Some (PDict Demo.labels)
  ∧ Demo.labels !! "208" = Some (PList [PStr "n02109961"; PStr "Eskimo_dog"])
  ∧ scores_of Demo.env Demo.loaded Demo.scores
  ∧ first_max Demo.scores 208
  ∧ class_id (fst (cell_infer Demo.env Demo.loaded)) = Some 208%Z
  ∧ snd (cell_infer Demo.env Demo.loaded)
    = Ok (PList [PStr "n02109961"; PStr "Eskimo_dog"]).
Proof.
  split; [reflexivity|]. split; [exact demo_labels_208|].
  split; [exact demo_scores_of|]. split; [exact demo_first_max|].
  exact (eskimo_dog Demo.env Demo.loaded Demo.labels Demo.scores
           eq_refl demo_labels_208 demo_scores_of demo_first_max).
Defined.

(** C9: for every single-channel (grey) image, the coercion to RGB
    followed by the preprocessing transform yields the 3-channel tensor
    that is obtained by resizing, cropping and scaling the single
    channel, replicating it three times, and applying the same
    standardisation. *)
Theorem grey_replicated env g :
  mode_of g = L → 0 < width g → 0 < height g →
  ∃ plane v,
    (transforms.Resize env 256 (OImage g) ≫= transforms.CenterCrop 224)
      ≫= transforms.ToTensor = Ok (OTensor [plane])
    ∧ transforms.Normalize [0.485; 0.456; 0.406]%Q [0.229; 0.224; 0.225]%Q
        (OTensor [plane; plane; plane]) = Ok (OTensor v)
    ∧ t env (OImage (Image.convert_RGB g)) = Ok (OTensor v)
    ∧ has_shape3 3 224 224 v.
Proof.
  intros Hmode Hw Hh.
  assert (mode_of (Image.convert_RGB g) = RGB
          ∧ width (Image.convert_RGB g) = width g
          ∧ height (Image.convert_RGB g) = height g) as (Hm' & Hw' & Hh').
  { unfold Image.convert_RGB. by rewrite Hmode. }
  destruct (t_run env (Image.convert_RGB g)) as (r & c & u & v & H);
    [done|lia..|].
  destruct H as (HR & _ & HC & _ & HT & _ & HN & _ & Ht & Hv).
  destruct (gray_stages env g u Hmode) as (plane & Hg & ->).
  { by rewrite HR, result_bind_ok, HC, result_bind_ok. }
  exists plane, v. repeat (split; [assumption|]). assumption.
Qed.

Lemma grey_replicated_witness :
  mode_of Demo.scan = L ∧ 0 < width Demo.scan ∧ 0 < height Demo.scan
  ∧ ∃ plane v,
      (transforms.Resize Demo.env 256 (OImage Demo.scan)
         ≫= transforms.CenterCrop 224) ≫= transforms.ToTensor
      = Ok (OTensor [plane])
      ∧ transforms.Normalize [0.485; 0.456; 0.406]%Q [0.229; 0.224; 0.225]%Q
          (OTensor [plane; plane; plane]) = Ok (OTensor v)
      ∧ t Demo.env (OImage (Image.convert_RGB Demo.scan)) = Ok (OTensor v)
      ∧ has_shape3 3 224 224 v.
Proof.
  split; [reflexivity|]. split; [cbn; lia|]. split; [cbn; lia|].
  apply (grey_replicated Demo.env Demo.scan); [reflexivity|cbn; lia..].
Defined.

(** C10: [preproc] ignores its argument and reads the global [img]:
    called with any two arguments on the same namespace it returns the
    same tensor, it leaves the namespace as it is, and what it returns
    is the transform of the image bound to [img] ([NameError] when
    nothing is). *)
Theorem preproc_ignores_argument env {X Y : Type} (a : X) (b : Y) s :
  preproc env a s = preproc env b s
  ∧ fst (preproc env a s) = s
  ∧ snd (preproc env a s)
    = match img s with
      | None => Raise NameError
      | Some im =>
          o ← t env (OImage im); x ← torch_Tensor o; Ok (unsqueeze0 x)
      end.
Proof. by rewrite !preproc_run. Qed.

(** * Further properties of the cells *)

(** ** The image cell *)

Lemma convert_RGB_mode im :
  mode_of (Image.convert_RGB im) = RGB
  ∧ width (Image.convert_RGB im) = width im
  ∧ height (Image.convert_RGB im) = height im.
Proof. unfold Image.convert_RGB. by destruct (mode_of im) eqn:E. Qed.

(** ** The outcome of [preproc] *)

Lemma Resize_zero_side env size im :
  0 < size → (width im =? 0) || (height im =? 0) = true →
  transforms.Resize env size (OImage im) = Raise ZeroDivisionError.
Proof.
  intros Hs Hz. unfold transforms.Resize.
  apply orb_true_iff in Hz as [Hz|Hz]; apply Nat.eqb_eq in Hz.
  - destruct (_ || _) eqn:E.
    { apply orb_true_iff in E as [E|E];
        apply andb_true_iff in E as [E1 E2];
        apply Nat.leb_le in E1; apply Nat.eqb_eq in E2; lia. }
    destruct (width im <? height im) eqn:Hlt.
    + by rewrite Hz.
    + apply Nat.ltb_ge in Hlt.
      assert (height im = 0) as -> by lia. done.
  - destruct (_ || _) eqn:E.
    { apply orb_true_iff in E as [E|E];
        apply andb_true_iff in E as [E1 E2];
        apply Nat.leb_le in E1; apply Nat.eqb_eq in E2; lia. }
    destruct (width im <? height im) eqn:Hlt.
    + apply Nat.ltb_lt in Hlt. lia.
    + by rewrite Hz.
Qed.

(** X2: on a namespace whose image, if any, is in RGB mode, [preproc]
    has one of three outcomes: [NameError] when [img] is unbound,
    [ZeroDivisionError] when the image has a side of zero, and otherwise
    a batch of exactly one tensor of shape (3, 224, 224). *)
Theorem preproc_outcome env {X : Type} (a : X) s :
  img_is_RGB s →
  match img s with
  | None => snd (preproc env a s) = Raise NameError
  | Some im =>
      if (width im =? 0) || (height im =? 0)
      then snd (preproc env a s) = Raise ZeroDivisionError
      else ∃ x, snd (preproc env a s) = Ok [x] ∧ has_shape3 3 224 224 x
  end.
Proof.
  unfold img_is_RGB. intros Hs. rewrite preproc_run. cbn [snd].
  destruct (img s) as [im|]; [|done].
  destruct (_ || _) eqn:Hz.
  - rewrite t_unfold, Resize_zero_side; [done|lia|done].
  - apply orb_false_iff in Hz as [Hw Hh].
    apply Nat.eqb_neq in Hw, Hh.
    destruct (t_run env im Hs) as (r & c & u & v & H); [lia..|].
    destruct H as (_ & _ & _ & _ & _ & _ & _ & _ & Ht & Hv).
    exists v. by rewrite Ht.
Qed.

Lemma preproc_outcome_witness :
  img_is_RGB Demo.loaded
  ∧ ∃ x, snd (preproc Demo.env 0 Demo.loaded) = Ok [x]
         ∧ has_shape3 3 224 224 x.
Proof.
  split; [reflexivity|].
  exact (preproc_outcome Demo.env 0 Demo.loaded eq_refl).
Defined.

(** ** The cells that load, in any order *)

(** X3: the cells that load the model, the labels and the image write
    different globals, so any two of them give the same namespace in
    either order. *)
Theorem loading_cells_commute env path s :
  run_cell env CModel (run_cell env CLabels s)
  = run_cell env CLabels (run_cell env CModel s)
  ∧ run_cell env CModel (run_cell env (CImage path) s)
    = run_cell env (CImage path) (run_cell env CModel s)
  ∧ run_cell env CLabels (run_cell env (CImage path) s)
    = run_cell env (CImage path) (run_cell env CLabels s).
Proof.
  unfold run_cell.
  rewrite !cell_model_run, !cell_labels_run, !cell_image_run.
  destruct (load_state_dict env), (_ ≫= _), (Image_open env path); done.
Qed.

(** ** The entries of the preprocessed tensor *)

Lemma entry_Some_bounds n h w (a : tensor3) ch y x q :
  has_shape3 n h w a → entry a ch y x = Some q → ch < n ∧ y < h ∧ x < w.
Proof.
  intros [Hn Ha]. unfold entry.
  destruct (a !! ch) as [p|] eqn:Hp; [|done]. simpl.
  destruct (p !! y) as [row|] eqn:Hrow; [|done]. simpl. intros Hq.
  destruct (Forall_lookup_1 _ _ _ _ Ha Hp) as [Hh Hw].
  pose proof (Forall_lookup_1 _ _ _ _ Hw Hrow) as Hw'. simpl in Hw'.
  apply lookup_lt_Some in Hp, Hrow, Hq. lia.
Qed.

(** The constants of [Normalize], channel by channel. *)
Lemma mean_std_lookup ch :
  ch < 3 →
  ∃ mc sc, [0.485; 0.456; 0.406]%Q !! ch = Some mc
           ∧ [0.229; 0.224; 0.225]%Q !! ch = Some sc.
Proof.
  intros Hch. destruct ch as [|[|[|ch]]]; [..|lia]; by eexists _, _.
Qed.

(** In every channel the entry of a byte lies between the entry of the
    byte 0 and the entry of the byte 255. *)
Lemma standardized_byte_range ch mc sc b :
  [0.485; 0.456; 0.406]%Q !! ch = Some mc →
  [0.229; 0.224; 0.225]%Q !! ch = Some sc →
  float32.leb (standardized_byte mc sc Byte.x00) (standardized_byte mc sc b)
  = true
  ∧ float32.leb (standardized_byte mc sc b) (standardized_byte mc sc Byte.xff)
    = true.
Proof.
  destruct ch as [|[|[|ch]]]; intros [= <-] [= <-];
    by destruct b; vm_compute.
Qed.

(** The entries of the tensor of an RGB image: the bytes of the crop,
    standardised. *)
Lemma t_entries env im :
  mode_of im = RGB → 0 < width im → 0 < height im →
  ∃ r v (i j : nat),
    transforms.Resize env 256 (OImage im) = Ok (OImage r)
    ∧ t env (OImage im) = Ok (OTensor v)
    ∧ has_shape3 3 224 224 v
    ∧ j + 224 ≤ width r ∧ i + 224 ≤ height r
    ∧ (width r - 224 - j ≤ j + 1 ∧ j ≤ width r - 224 - j + 1)
    ∧ (height r - 224 - i ≤ i + 1 ∧ i ≤ height r - 224 - i + 1)
    ∧ ∀ ch y x, ch < 3 → y < 224 → x < 224 →
        ∃ mc sc, [0.485; 0.456; 0.406]%Q !! ch = Some mc
                 ∧ [0.229; 0.224; 0.225]%Q !! ch = Some sc
                 ∧ entry v ch y x
                   = Some (standardized_byte mc sc
                             (px r ch (x + j) (y + i))).
Proof.
  intros Hmode Hw Hh.
  destruct (t_run env im Hmode Hw Hh) as (r & c & u & v & H).
  destruct H as (HR & _ & _ & Hcc & _ & [Hsu Hu] & _ & Hst & Ht & Hv).
  destruct (Resize_resize_of env 256 im r Hw Hh ltac:(lia) HR) as (Hmr & _).
  destruct Hcc as (i & j & Hmc & Hwc & Hhc & Hj & Hi & Hjm & Him & Hpx).
  exists r, v, i, j. repeat (split; [assumption|]).
  intros ch y x Hch Hy Hx.
  destruct (Hu ch y x) as (q0 & Hq0 & -> & _);
    [rewrite Hmc, Hmr, Hmode; cbn; lia|lia..|].
  destruct (mean_std_lookup ch Hch) as (mc & sc & Hm & Hs).
  exists mc, sc. split; [done|]. split; [done|].
  rewrite Hst, Hq0, Hm, Hs. cbn. by rewrite Hpx.
Qed.

(** X4: every entry of the tensor that the transform gives for an RGB
    image lies between the entry that the byte 0 gives and the entry that
    the byte 255 gives in its channel, all computed in [float32]: the
    byte divided by 255, less the mean, divided by the deviation. *)
Theorem preprocessed_range env im :
  mode_of im = RGB → 0 < width im → 0 < height im →
  ∃ v, t env (OImage im) = Ok (OTensor v)
       ∧ ∀ ch y x q, entry v ch y x = Some q →
           ∃ mc sc, [0.485; 0.456; 0.406]%Q !! ch = Some mc
                    ∧ [0.229; 0.224; 0.225]%Q !! ch = Some sc
                    ∧ float32.leb (standardized_byte mc sc Byte.x00) q = true
                    ∧ float32.leb q (standardized_byte mc sc Byte.xff) = true.
Proof.
  intros Hmode Hw Hh.
  destruct (t_entries env im Hmode Hw Hh)
    as (r & v & i & j & _ & Ht & Hv & _ & _ & _ & _ & Hentry).
  exists v. split; [done|]. intros ch y x q Hq.
  destruct (entry_Some_bounds _ _ _ _ _ _ _ _ Hv Hq) as (Hch & Hy & Hx).
  destruct (Hentry ch y x Hch Hy Hx) as (mc & sc & Hm & Hs & Hq').
  rewrite Hq' in Hq. injection Hq as <-.
  exists mc, sc. split; [done|]. split; [done|].
  by apply (standardized_byte_range ch).
Qed.

Lemma preprocessed_range_witness :
  mode_of Demo.dog = RGB ∧ 0 < width Demo.dog ∧ 0 < height Demo.dog
  ∧ ∃ v, t Demo.env (OImage Demo.dog) = Ok (OTensor v)
         ∧ ∀ ch y x q, entry v ch y x = Some q →
             ∃ mc sc, [0.485; 0.456; 0.406]%Q !! ch = Some mc
                      ∧ [0.229; 0.224; 0.225]%Q !! ch = Some sc
                      ∧ float32.leb (standardized_byte mc sc Byte.x00) q
                        = true
                      ∧ float32.leb q (standardized_byte mc sc Byte.xff)
                        = true.
Proof.
  split; [reflexivity|]. split; [cbn; lia|]. split; [cbn; lia|].
  apply (preprocessed_range Demo.env Demo.dog); [reflexivity|cbn; lia..].
Defined.

(** X5: the transform, entry by entry.  For an RGB image, the entry at
    channel [ch], row [y] and column [x] of the tensor is made of the
    byte of the resized image at column [x + j] and row [y + i]: the byte
    as a [float32] divided by 255, less the mean of the channel, divided
    by its deviation, each operation rounded to [float32]; [i] and [j]
    are the margins of a centred window of 224 by 224. *)
Theorem preprocessed_entry env im :
  mode_of im = RGB → 0 < width im → 0 < height im →
  ∃ r v (i j : nat),
    transforms.Resize env 256 (OImage im) = Ok (OImage r)
    ∧ t env (OImage im) = Ok (OTensor v)
    ∧ j + 224 ≤ width r ∧ i + 224 ≤ height r
    ∧ (width r - 224 - j ≤ j + 1 ∧ j ≤ width r - 224 - j + 1)
    ∧ (height r - 224 - i ≤ i + 1 ∧ i ≤ height r - 224 - i + 1)
    ∧ ∀ ch y x, ch < 3 → y < 224 → x < 224 →
        ∃ mc sc, [0.485; 0.456; 0.406]%Q !! ch = Some mc
                 ∧ [0.229; 0.224; 0.225]%Q !! ch = Some sc
                 ∧ entry v ch y x
                   = Some (float32.div
                             (float32.sub
                                (float32.div
                                   (float32.of_byte (px r ch (x + j) (y + i)))
                                   (float32.of_Z 255))
                                (float32.as_tensor mc))
                             (float32.as_tensor sc)).
Proof.
  intros Hmode Hw Hh.
  destruct (t_entries env im Hmode Hw Hh)
    as (r & v & i & j & HR & Ht & _ & Hj & Hi & Hjm & Him & Hentry).
  exists r, v, i, j. repeat (split; [assumption|]). exact Hentry.
Qed.

Lemma preprocessed_entry_witness :
  mode_of Demo.dog = RGB ∧ 0 < width Demo.dog ∧ 0 < height Demo.dog
  ∧ ∃ r v (i j : nat),
      transforms.Resize Demo.env 256 (OImage Demo.dog) = Ok (OImage r)
      ∧ t Demo.env (OImage Demo.dog) = Ok (OTensor v)
      ∧ j + 224 ≤ width r ∧ i + 224 ≤ height r
      ∧ (width r - 224 - j ≤ j + 1 ∧ j ≤ width r - 224 - j + 1)
      ∧ (height r - 224 - i ≤ i + 1 ∧ i ≤ height r - 224 - i + 1)
      ∧ ∀ ch y x, ch < 3 → y < 224 → x < 224 →
          ∃ mc sc, [0.485; 0.456; 0.406]%Q !! ch = Some mc
                   ∧ [0.229; 0.224; 0.225]%Q !! ch = Some sc
                   ∧ entry v ch y x
                     = Some (float32.div
                               (float32.sub
                                  (float32.div
                                     (float32.of_byte
                                        (px r ch (x + j) (y + i)))
                                     (float32.of_Z 255))
                                  (float32.as_tensor mc))
                               (float32.as_tensor sc)).
Proof.
  split; [reflexivity|]. split; [cbn; lia|]. split; [cbn; lia|].
  apply (preprocessed_entry Demo.env Demo.dog); [reflexivity|cbn; lia..].
Defined.

(** X6: an image whose shorter side is 256 already is not resampled:
    the transform gives the same result whatever the resampling filter of
    the image library. *)
Theorem t_filter_independent env env' im :
  Nat.min (width im) (height im) = 256 →
  t env (OImage im) = t env' (OImage im).
Proof.
  intros Hmin. rewrite !t_unfold. unfold transforms.Resize.
  replace (((width im <=? height im) && (width im =? 256))
           || ((height im <=? width im) && (height im =? 256))) with true;
    [done|].
  symmetry. apply orb_true_iff.
  destruct (Nat.le_ge_cases (width im) (height im)) as [Hle|Hle].
  - left. apply andb_true_iff. split; [by apply Nat.leb_le|].
    apply Nat.eqb_eq. lia.
  - right. apply andb_true_iff. split; [by apply Nat.leb_le|].
    apply Nat.eqb_eq. lia.
Qed.

Lemma t_filter_independent_witness :
  Nat.min (width demo_portrait) (height demo_portrait) = 256
  ∧ t Demo.env (OImage demo_portrait) = t demo_env_black (OImage demo_portrait).
Proof.
  split; [reflexivity|].
  exact (t_filter_independent Demo.env demo_env_black demo_portrait eq_refl).
Defined.

(** ** The inference cell *)

Lemma max_vec_value x l v i :
  max_vec (x :: l) = Ok (v, i) → (x :: l) !! i = Some v ∧ first_max (x :: l) i.
Proof.
  simpl. intros [= Hmax].
  destruct (max_from_first_max l [x] (x, 0)) as [Hfm Hv].
  - simpl. exists x. split; [done|]. split.
    + intros [|j] w Hj; simplify_eq/=; lra.
    + intros; lia.
  - done.
  - simpl in Hfm, Hv. rewrite Hmax in Hfm, Hv. by split.
Qed.

(** The inference cell on a namespace whose forward evaluation gives a
    batch of one score vector that is not empty: the whole namespace
    after the cell. *)
Lemma cell_infer_scores_state env s x l :
  scores_of env s (x :: l) →
  ∃ o mdl' mv i,
    data o = [x :: l] ∧ max_vec (x :: l) = Ok (mv, i)
    ∧ cell_infer env s
      = (set_class_id (Z.of_nat i) (set_argm (T0 i) (set_m (T0 mv)
           (set_output o (count_forward (set_model mdl' s))))),
         match class_idx s with
         | None => Raise NameError
         | Some d => getitem d (str (Z.of_nat i))
         end).
Proof.
  intros (mdl & im & a & o & mdl' & Hm & Hi & Ht & Hf & Hd).
  destruct (max0_squeeze_batch1 x l) as (mv & i & Hmax & Hsq).
  exists o, mdl', mv, i. split; [done|]. split; [done|].
  rewrite cell_infer_run, infer_run, Hm, Hi, Ht, result_bind_ok.
  cbn [torch_Tensor]. rewrite Hf, resolve_run.
  cbn [output set_output]. rewrite Hd, Hsq. done.
Qed.

(** X7: after the inference cell, [m] is the maximum score and [argm]
    its index: [output] holds the scores, [m] and [argm] are scalars,
    the score at the index [argm] is [m], no score exceeds it, and
    [class_id] is the same index. *)
Theorem inference_binds_maximum env s scores :
  scores_of env s scores → scores ≠ [] →
  ∃ o v i,
    output (fst (cell_infer env s)) = Some o ∧ data o = [scores]
    ∧ m (fst (cell_infer env s)) = Some (T0 v)
    ∧ argm (fst (cell_infer env s)) = Some (T0 i)
    ∧ class_id (fst (cell_infer env s)) = Some (Z.of_nat i)
    ∧ scores !! i = Some v
    ∧ ∀ j w, scores !! j = Some w → (w <= v)%Q.
Proof.
  intros Hs Hne. destruct scores as [|x l]; [done|].
  destruct (cell_infer_scores_state env s x l Hs)
    as (o & mdl' & mv & i & Hd & Hmax & ->).
  destruct (max_vec_value x l mv i Hmax) as [Hv (v & Hv' & Hle & _)].
  assert (v = mv) as -> by congruence.
  by exists o, mv, i.
Qed.

Lemma inference_binds_maximum_witness :
  scores_of Demo.env Demo.loaded Demo.scores ∧ Demo.scores ≠ []
  ∧ ∃ o v i,
      output (fst (cell_infer Demo.env Demo.loaded)) = Some o
      ∧ data o = [Demo.scores]
      ∧ m (fst (cell_infer Demo.env Demo.loaded)) = Some (T0 v)
      ∧ argm (fst (cell_infer Demo.env Demo.loaded)) = Some (T0 i)
      ∧ class_id (fst (cell_infer Demo.env Demo.loaded)) = Some (Z.of_nat i)
      ∧ Demo.scores !! i = Some v
      ∧ ∀ j w, Demo.scores !! j = Some w → (w <= v)%Q.
Proof.
  split; [exact demo_scores_of|]. split; [discriminate|].
  apply (inference_binds_maximum Demo.env Demo.loaded Demo.scores).
  - exact demo_scores_of.
  - discriminate.
Defined.

(** X8: a label table that is unbound or is not a [dict] stops the
    inference cell only at its last statement ([NameError] when
    [class_idx] is unbound, [TypeError] when it is bound to a value that
    is not a [dict]); [output], [m], [argm] and [class_id] are bound by
    then. *)
Theorem lookup_fails_late env s scores :
  scores_of env s scores → scores ≠ [] →
  is_dict <$> class_idx s ≠ Some true →
  snd (cell_infer env s)
  = Raise match class_idx s with
          | Some _ => TypeError
          | None => NameError
          end
  ∧ ∃ i, class_id (fst (cell_infer env s)) = Some (Z.of_nat i)
         ∧ first_max scores i
         ∧ is_Some (output (fst (cell_infer env s)))
         ∧ is_Some (m (fst (cell_infer env s)))
         ∧ is_Some (argm (fst (cell_infer env s))).
Proof.
  intros Hs Hne Hd. destruct scores as [|x l]; [done|].
  destruct (cell_infer_scores_state env s x l Hs)
    as (o & mdl' & mv & i & _ & Hmax & ->).
  destruct (max_vec_value x l mv i Hmax) as [_ Hfm].
  split.
  - cbn [snd]. destruct (class_idx s) as [[]|]; done.
  - exists i. by repeat split.
Qed.

Lemma demo_array_scores_of :
  scores_of Demo.env demo_loaded_array Demo.scores.
Proof.
  destruct demo_scores_of as (mdl & im & x & o & mdl' & H).
  by exists mdl, im, x, o, mdl'.
Qed.

Lemma lookup_fails_late_witness :
  scores_of Demo.env demo_loaded_array Demo.scores ∧ Demo.scores ≠ []
  ∧ is_dict <$> class_idx demo_loaded_array ≠ Some true
  ∧ snd (cell_infer Demo.env demo_loaded_array)
    = Raise match class_idx demo_loaded_array with
            | Some _ => TypeError
            | None => NameError
            end
  ∧ ∃ i, class_id (fst (cell_infer Demo.env demo_loaded_array))
         = Some (Z.of_nat i)
         ∧ first_max Demo.scores i
         ∧ is_Some (output (fst (cell_infer Demo.env demo_loaded_array)))
         ∧ is_Some (m (fst (cell_infer Demo.env demo_loaded_array)))
         ∧ is_Some (argm (fst (cell_infer Demo.env demo_loaded_array))).
Proof.
  split; [exact demo_array_scores_of|]. split; [discriminate|].
  split; [discriminate|].
  apply (lookup_fails_late Demo.env demo_loaded_array Demo.scores).
  - exact demo_array_scores_of.
  - discriminate.
  - discriminate.
Defined.

(** X9: the inference cell on a namespace where [model] or [img] is
    unbound raises [NameError] at its first statement and leaves the
    namespace as it was: no forward evaluation is made. *)
Theorem inference_needs_globals env s :
  model s = None ∨ img s = None →
  cell_infer env s = (s, Raise NameError).
Proof.
  intros H. rewrite cell_infer_run, infer_run.
  destruct H as [-> | ->]; [done|]. by destruct (model s).
Qed.

Lemma inference_needs_globals_witness :
  (model (run_cell Demo.env CModel fresh) = None
   ∨ img (run_cell Demo.env CModel fresh) = None)
  ∧ cell_infer Demo.env (run_cell Demo.env CModel fresh)
    = (run_cell Demo.env CModel fresh, Raise NameError).
Proof.
  split; [by right|].
  apply (inference_needs_globals Demo.env (run_cell Demo.env CModel fresh)).
  by right.
Defined.

(** X10: with the model in evaluation mode, running the inference cell a
    second time changes nothing: it has the same value and leaves the
    same globals as the first run. *)
Theorem inference_idempotent env s mdl :
  model s = Some mdl → training mdl = false →
  snd (cell_infer env (fst (cell_infer env s))) = snd (cell_infer env s)
  ∧ same_globals (fst (cell_infer env (fst (cell_infer env s))))
      (fst (cell_infer env s)).
Proof.
  intros Hm Htr. unfold same_globals.
  rewrite (cell_infer_run env s), (infer_run env s), Hm.
  destruct (img s) as [im|] eqn:Hi.
  2:{ cbn [fst]. rewrite cell_infer_run, infer_run, Hm, Hi. by cbn. }
  destruct (_ ≫= _) as [x|e] eqn:Ht.
  2:{ cbn [fst]. rewrite cell_infer_run, infer_run, Hm, Hi, Ht. by cbn. }
  unfold forward. rewrite Htr.
  destruct (forward_eval env (state mdl) [x]) as [scores|e] eqn:Hf.
  2:{ cbn [mbind result_bind fst]. rewrite cell_infer_run, infer_run.
      cbn [model img grad_enabled count_forward]. rewrite Hm, Hi, Ht.
      unfold forward. rewrite Htr, Hf. by cbn. }
  rewrite result_bind_ok.
  set (o := {| data := scores;
               requires_grad := grad_enabled s && params_require_grad mdl |}).
  assert (∀ s1,
    model s1 = Some mdl → img s1 = Some im →
    grad_enabled s1 = grad_enabled s →
    cell_infer env s1
    = resolve (set_output o (count_forward (set_model mdl s1)))) as Hrun.
  { intros s1 Hm1 Hi1 Hg1.
    rewrite cell_infer_run, infer_run, Hm1, Hi1, Ht. unfold forward.
    by rewrite Htr, Hf, result_bind_ok, Hg1. }
  rewrite !resolve_run. cbn [output set_output].
  destruct (max0 (squeeze (data o))) as [[mv am]|e] eqn:Hmax.
  2:{ cbn [fst]. rewrite Hrun by done. rewrite resolve_run.
      cbn [output set_output]. rewrite Hmax. by cbn. }
  cbv zeta. destruct (item am) as [i|e] eqn:Hitem.
  2:{ cbn [fst]. rewrite Hrun by done. rewrite resolve_run.
      cbn [output set_output]. rewrite Hmax. cbv zeta. rewrite Hitem.
      by cbn. }
  cbn [fst]. rewrite Hrun by done. rewrite resolve_run.
  cbn [output set_output]. rewrite Hmax. cbv zeta. rewrite Hitem.
  by cbn.
Qed.

Lemma inference_idempotent_witness :
  model Demo.loaded = Some (pretrained_model Demo.pretrained)
  ∧ training (pretrained_model Demo.pretrained) = false
  ∧ snd (cell_infer Demo.env (fst (cell_infer Demo.env Demo.loaded)))
    = snd (cell_infer Demo.env Demo.loaded)
  ∧ same_globals (fst (cell_infer Demo.env (fst (cell_infer Demo.env Demo.loaded))))
      (fst (cell_infer Demo.env Demo.loaded)).
Proof.
  split; [reflexivity|]. split; [reflexivity|].
  exact (inference_idempotent Demo.env Demo.loaded
           (pretrained_model Demo.pretrained) eq_refl eq_refl).
Defined.

(** X11: the inference cell rebinds [output], [m], [argm] and [class_id]
    only: with the model in evaluation mode it leaves [model], [url],
    [class_idx], [img] and the gradient mode as they were, whether it
    succeeds or raises. *)
Theorem inference_frame env s mdl :
  model s = Some mdl → training mdl = false →
  model (fst (cell_infer env s)) = model s
  ∧ url (fst (cell_infer env s)) = url s
  ∧ class_idx (fst (cell_infer env s)) = class_idx s
  ∧ img (fst (cell_infer env s)) = img s
  ∧ grad_enabled (fst (cell_infer env s)) = grad_enabled s.
Proof.
  intros Hm Htr. rewrite cell_infer_run, infer_run, Hm.
  destruct (img s) as [im|] eqn:Hi; [|by cbn].
  destruct (_ ≫= _) as [x|e]; [|by cbn].
  unfold forward. rewrite Htr.
  destruct (forward_eval env (state mdl) [x]) as [scores|e]; [|by cbn].
  rewrite result_bind_ok, resolve_run. cbn [output set_output].
  destruct (max0 _) as [[mv am]|e]; [|by cbn].
  cbv zeta. by destruct (item am) as [i|e]; cbn.
Qed.

Lemma inference_frame_witness :
  model Demo.loaded = Some (pretrained_model Demo.pretrained)
  ∧ training (pretrained_model Demo.pretrained) = false
  ∧ model (fst (cell_infer Demo.env Demo.loaded)) = model Demo.loaded
  ∧ url (fst (cell_infer Demo.env Demo.loaded)) = url Demo.loaded
  ∧ class_idx (fst (cell_infer Demo.env Demo.loaded)) = class_idx Demo.loaded
  ∧ img (fst (cell_infer Demo.env Demo.loaded)) = img Demo.loaded
  ∧ grad_enabled (fst (cell_infer Demo.env Demo.loaded))
    = grad_enabled Demo.loaded.
Proof.
  split; [reflexivity|]. split; [reflexivity|].
  exact (inference_frame Demo.env Demo.loaded
           (pretrained_model Demo.pretrained) eq_refl eq_refl).
Defined.

(** ** The whole notebook *)

(** X12: the notebook run from top to bottom succeeds in a world that
    serves its inputs: when the weights download, the label file is a
    JSON object whose keys are the numerals of 0..999, the image file
    opens to an image of positive size in any mode, and the network
    returns 1000 scores for a batch of one, then the inference cell
    returns the entry of the label table at the index of the greatest
    score, and that index is below 1000. *)
Theorem run_all_succeeds env sd d im path s :
  load_state_dict env = Ok sd →
  urlopen_read env label_url = Ok (JSON (PDict d)) →
  dom d = label_keys →
  Image_open env path = Ok im → 0 < width im → 0 < height im →
  (∀ x, ∃ scores, forward_eval env sd [x] = Ok [scores]
                  ∧ length scores = 1000) →
  ∃ scores i p,
    scores_of env (run_cells env [CModel; CLabels; CImage path] s) scores
    ∧ first_max scores i ∧ i < 1000
    ∧ d !! str (Z.of_nat i) = Some p
    ∧ class_id (run_cells env [CModel; CLabels; CImage path; CInfer] s)
      = Some (Z.of_nat i)
    ∧ snd (cell_infer env (run_cells env [CModel; CLabels; CImage path] s))
      = Ok p.
Proof.
  intros Hsd Hdoc Hdom Him Hw Hh Hfwd.
  set (s3 := run_cells env [CModel; CLabels; CImage path] s).
  assert (model s3 = Some (pretrained_model sd)
          ∧ img s3 = Some (Image.convert_RGB im)
          ∧ class_idx s3 = Some (PDict d)) as (Hm3 & Hi3 & Hc3).
  { unfold s3, run_cells. cbn [fold_left run_cell].
    rewrite cell_model_run, Hsd. cbn [fst].
    rewrite cell_labels_run, Hdoc, result_bind_ok. cbn [json.loads fst].
    rewrite cell_image_run, Him. done. }
  destruct (convert_RGB_mode im) as (Hmode & Hw' & Hh').
  destruct (t_run env (Image.convert_RGB im) Hmode) as (r & c & u & x & H);
    [lia..|].
  destruct H as (_ & _ & _ & _ & _ & _ & _ & _ & Ht & _).
  destruct (Hfwd x) as (scores & Hf & Hlen).
  assert (scores_of env s3 scores) as Hs.
  { exists (pretrained_model sd), (Image.convert_RGB im), x,
      {| data := [scores]; requires_grad := grad_enabled s3 && true |},
      (pretrained_model sd).
    repeat (split; [done|]). split; [|done].
    unfold forward. cbn [training pretrained_model state].
    by rewrite Hf. }
  destruct scores as [|y l]; [done|].
  destruct (max_vec_first_max y l) as (mv & i & _ & Hfm).
  assert (i < 1000) as Hi.
  { destruct Hfm as (v & Hv & _). apply lookup_lt_Some in Hv. lia. }
  destruct (cell_infer_first_max env s3 (y :: l) i Hs Hfm) as [Hid Hval].
  assert (is_Some (d !! str (Z.of_nat i))) as [p Hp].
  { apply elem_of_dom. rewrite Hdom. by apply str_in_label_keys. }
  exists (y :: l), i, p. repeat (split; [done|]).
  rewrite Hval, Hc3. unfold getitem. by rewrite Hp.
Qed.

Lemma demo_forward_scores x :
  ∃ scores, forward_eval Demo.env Demo.pretrained [x] = Ok [scores]
            ∧ length scores = 1000.
Proof. by exists Demo.scores. Qed.

Lemma run_all_succeeds_witness :
  load_state_dict Demo.env = Ok Demo.pretrained
  ∧ urlopen_read Demo.env label_url = Ok (JSON (PDict Demo.labels))
  ∧ dom Demo.labels = label_keys
  ∧ Image_open Demo.env "../data/imgs/cat.jpg" = Ok Demo.scan
  ∧ 0 < width Demo.scan ∧ 0 < height Demo.scan
  ∧ (∀ x, ∃ scores, forward_eval Demo.env Demo.pretrained [x] = Ok [scores]
                    ∧ length scores = 1000)
  ∧ ∃ scores i p,
      scores_of Demo.env
        (run_cells Demo.env [CModel; CLabels; CImage "../data/imgs/cat.jpg"]
           fresh) scores
      ∧ first_max scores i ∧ i < 1000
      ∧ Demo.labels !! str (Z.of_nat i) = Some p
      ∧ class_id
          (run_cells Demo.env
             [CModel; CLabels; CImage "../data/imgs/cat.jpg"; CInfer] fresh)
        = Some (Z.of_nat i)
      ∧ snd (cell_infer Demo.env
               (run_cells Demo.env
                  [CModel; CLabels; CImage "../data/imgs/cat.jpg"] fresh))
        = Ok p.
Proof.
  split; [reflexivity|]. split; [reflexivity|].
  split; [exact demo_labels_dom|]. split; [reflexivity|].
  split; [cbn; lia|]. split; [cbn; lia|].
  split; [exact demo_forward_scores|].
  apply (run_all_succeeds Demo.env Demo.pretrained Demo.labels Demo.scan
           "../data/imgs/cat.jpg" fresh);
    [reflexivity|reflexivity|exact demo_labels_dom|reflexivity
    |cbn; lia|cbn; lia|exact demo_forward_scores].
Defined.

(** X13: a load that fails keeps what was bound: when the weights do not
    download, [model] is not rebound; when the label file is out of
    reach, only [url] is bound and [class_idx] stays; when the image file
    does not open, [img] stays.  In each case the exception of the
    library reaches the user as it is. *)
Theorem failed_loads_keep_bindings env path s e1 e2 e3 :
  load_state_dict env = Raise e1 →
  urlopen_read env label_url = Raise e2 →
  Image_open env path = Raise e3 →
  cell_model env s = (s, Raise e1)
  ∧ cell_labels env s = (set_url label_url s, Raise e2)
  ∧ cell_image env path s = (s, Raise e3)
  ∧ run_cells env [CModel; CLabels; CImage path] s = set_url label_url s.
Proof.
  intros H1 H2 H3. unfold run_cells. cbn [fold_left run_cell].
  by rewrite !cell_model_run, !cell_labels_run, !cell_image_run, H1, H2, H3.
Qed.

Lemma failed_loads_keep_bindings_witness :
  load_state_dict demo_env_offline = Raise URLError
  ∧ urlopen_read demo_env_offline label_url = Raise URLError
  ∧ Image_open demo_env_offline "../data/imgs/img.jpg"
    = Raise FileNotFoundError
  ∧ cell_model demo_env_offline Demo.loaded = (Demo.loaded, Raise URLError)
  ∧ cell_labels demo_env_offline Demo.loaded
    = (set_url label_url Demo.loaded, Raise URLError)
  ∧ cell_image demo_env_offline "../data/imgs/img.jpg" Demo.loaded
    = (Demo.loaded, Raise FileNotFoundError)
  ∧ run_cells demo_env_offline
      [CModel; CLabels; CImage "../data/imgs/img.jpg"] Demo.loaded
    = set_url label_url Demo.loaded.
Proof.
  split; [reflexivity|]. split; [reflexivity|]. split; [reflexivity|].
  exact (failed_loads_keep_bindings demo_env_offline "../data/imgs/img.jpg"
           Demo.loaded URLError URLError FileNotFoundError
           eq_refl eq_refl eq_refl).
Defined.
